(** * hostStats: a shallow embedding of [hostStats.go]

    The program reads a list of vCenter endpoints, starts one worker
    goroutine per endpoint, lets every worker connect, collect one row per
    physical host and disconnect, waits for one completion token per
    endpoint and finally appends the rows of every endpoint to a CSV file.

    Layout of this file:
    - machine integers and printing;
    - the record model ([hostStat], [Headers], [Slice]);
    - the session functions ([Connect], [Init], [Disconnect]) over an
      explicit description of what the remote endpoint answers;
    - the sink ([newCsv], [csvExport]);
    - the goroutines of [main] and [worker] as a step function driven by
      a schedule, and the beginning of [main];
    - the invariants of the goroutines, the statements about the record
      model and sample data;
    - the proofs: the invariants, progress and termination, then the
      properties of the record model and of the run as a whole.

    What lies outside the repository is taken as given: govmomi's data
    types are reduced to the fields read, with their pointers, its calls
    and the file system answer as a [World] says, and
    [units.ByteSize.String] and the encoding of a record by
    [encoding/csv] are parameters. A pointer is an [option]: [None] is
    nil, and following a nil pointer is a panic, which ends the process
    with status 2. *)

From Stdlib Require Import ZArith Lia.
From stdpp Require Import base tactics option list strings pretty.

Open Scope Z_scope.

(** ** Machine integers *)

(** Go's fixed-width signed integers are integers with wrap-around. *)
Definition wrap (w : Z) (x : Z) : Z :=
  (x + 2 ^ (w - 1)) mod 2 ^ w - 2 ^ (w - 1).

Definition in_int (w : Z) (x : Z) : Prop :=
  - 2 ^ (w - 1) <= x < 2 ^ (w - 1).

(** The conversion [int64(x)] and the [int64] operations the source uses. *)
Definition int64 (x : Z) : Z := wrap 64 x.
Definition mul64 (x y : Z) : Z := wrap 64 (x * y).
Definition sub64 (x y : Z) : Z := wrap 64 (x - y).

(** [strconv.FormatInt(x, 10)], and the way [fmt.Println] shows an [int]. *)
Definition FormatInt (x : Z) : string := pretty x.

(** [fmt.Println] writes its operands separated by single spaces. *)
Definition Println (args : list string) : string := String.concat " " args.

(** Go's [error] values are kept as the text [err.Error()] returns;
    [None] is [nil]. *)
Definition error := string.

Inductive result (A : Type) : Type :=
| Ok (a : A)
| Err (e : error).
Arguments Ok {A} a.
Arguments Err {A} e.

(** How a call ends: it returns, or the process ends inside it, by
    [os.Exit] with a status or by a panic. *)
Inductive outcome (A : Type) : Type :=
| Return (a : A)
| Exit (code : Z)
| Panic.
Arguments Return {A} a.
Arguments Exit {A} code.
Arguments Panic {A}.

(** ** The data the remote endpoint returns (govmomi) *)

(** The fields of govmomi's [vim25/types] structures that [Init] reads.
    [HostListSummary.Hardware] is a pointer. *)
Module types.
Record HostHardwareSummary := {
  CpuModel : string;
  CpuMhz : Z;              (* int32 *)
  NumCpuPkgs : Z;          (* int16 *)
  NumCpuCores : Z;         (* int16 *)
  NumCpuThreads : Z;       (* int16 *)
  MemorySize : Z;          (* int64, bytes *)
}.
Record HostListSummaryQuickStats := {
  OverallCpuUsage : Z;     (* int32, MHz *)
  OverallMemoryUsage : Z;  (* int32, MB *)
}.
Record HostConfigSummary := { Name : string }.
Record HostListSummary := {
  Hardware : option HostHardwareSummary;   (* *HostHardwareSummary *)
  QuickStats : HostListSummaryQuickStats;
  Config : HostConfigSummary;
}.
Record AboutInfo := { Build : string; Version : string }.
Record HostConfigInfo := { Product : AboutInfo }.
Record HostSystemInfo := { Model : string; Vendor : string }.
Record HostHardwareInfo := { SystemInfo : HostSystemInfo }.
(** A managed object reference, here the value of the reference. *)
Definition ManagedObjectReference := string.
End types.

(** [mo.HostSystem]: [Parent], [Hardware] and [Config] are pointers. *)
Module mo.
Record HostSystem := {
  Summary : types.HostListSummary;
  Parent : option types.ManagedObjectReference;   (* *ManagedObjectReference *)
  Hardware : option types.HostHardwareInfo;       (* *HostHardwareInfo *)
  Config : option types.HostConfigInfo;           (* *HostConfigInfo *)
}.
End mo.

(** The values of a hardware summary and of the quick statistics are
    within the ranges of their Go types. *)
Definition hardware_in_range (hw : types.HostHardwareSummary) : Prop :=
  in_int 32 (types.CpuMhz hw) /\
  in_int 16 (types.NumCpuPkgs hw) /\
  in_int 16 (types.NumCpuCores hw) /\
  in_int 16 (types.NumCpuThreads hw) /\
  in_int 64 (types.MemorySize hw).

Definition stats_in_range (qs : types.HostListSummaryQuickStats) : Prop :=
  in_int 32 (types.OverallCpuUsage qs) /\
  in_int 32 (types.OverallMemoryUsage qs).

(** The values of a host are within the ranges of their Go types. *)
Definition host_in_range (hs : mo.HostSystem) : Prop :=
  (forall hw, types.Hardware (mo.Summary hs) = Some hw -> hardware_in_range hw) /\
  stats_in_range (types.QuickStats (mo.Summary hs)).

(** ** The record model *)

Record hostStat := {
  Cluster : string;
  Host : string;
  Version : string;
  Build : string;
  Vendor : string;
  Model : string;
  NumCpuPkgs : Z;          (* int16 *)
  NumCpuCores : Z;         (* int16 *)
  NumCpuThreads : Z;       (* int16 *)
  CpuModel : string;
  TotalCPU : Z;            (* int64 *)
  FreeCPU : Z;             (* int64 *)
  OverallMemoryUsage : Z;  (* int64 *)
  MemorySize : Z;          (* int32 *)
  FreeMemory : Z;          (* int64 *)
}.

(** The fields of [hostStat], in the order of the declaration. This is
    what [reflect] enumerates with [NumField] and [Field(i)]. *)
Inductive field :=
| FCluster | FHost | FVersion | FBuild | FVendor | FModel
| FNumCpuPkgs | FNumCpuCores | FNumCpuThreads | FCpuModel
| FTotalCPU | FFreeCPU | FOverallMemoryUsage | FMemorySize | FFreeMemory.

Definition struct_fields : list field :=
  [FCluster; FHost; FVersion; FBuild; FVendor; FModel;
   FNumCpuPkgs; FNumCpuCores; FNumCpuThreads; FCpuModel;
   FTotalCPU; FFreeCPU; FOverallMemoryUsage; FMemorySize; FFreeMemory].

Definition field_name (f : field) : string :=
  match f with
  | FCluster => "Cluster" | FHost => "Host" | FVersion => "Version"
  | FBuild => "Build" | FVendor => "Vendor" | FModel => "Model"
  | FNumCpuPkgs => "NumCpuPkgs" | FNumCpuCores => "NumCpuCores"
  | FNumCpuThreads => "NumCpuThreads" | FCpuModel => "CpuModel"
  | FTotalCPU => "TotalCPU" | FFreeCPU => "FreeCPU"
  | FOverallMemoryUsage => "OverallMemoryUsage"
  | FMemorySize => "MemorySize" | FFreeMemory => "FreeMemory"
  end.

(** [Headers]: the names of the fields of a zero [hostStat], by
    reflection; the receiver is not used. *)
Definition Headers (r : hostStat) : list string :=
  map field_name struct_fields.

Section Program.

(** [units.ByteSize.String] of govmomi, which formats a byte count with a
    unit suffix, is outside the repository: it is a parameter. *)
Variable ByteSize_String : Z -> string.

(** What [csv.Writer.Write] of [encoding/csv] puts into the buffer of
    the writer for one record, the bytes of its line, is outside the
    repository as well. *)
Variable csv_Write : list string -> list Byte.byte.

Definition Slice (r : hostStat) : list string :=
  [ Cluster r;
    Host r;
    Version r;
    Build r;
    Vendor r;
    Model r;
    FormatInt (int64 (NumCpuPkgs r));
    FormatInt (int64 (NumCpuCores r));
    FormatInt (int64 (NumCpuThreads r));
    CpuModel r;
    FormatInt (int64 (TotalCPU r));
    FormatInt (int64 (FreeCPU r));
    ByteSize_String (mul64 (mul64 (int64 (MemorySize r)) 1024) 1024);
    ByteSize_String (int64 (OverallMemoryUsage r));
    ByteSize_String (int64 (FreeMemory r)) ].

(** The body of the loop of [Init] from [totalCPU] up to the
    construction of [stats], for a host [hs] whose parent has the name
    [cluster]. It follows [hs.Summary.Hardware], [hs.Config] and
    [hs.Hardware], in this order: [None] is the panic on the first of
    them that is nil. *)
Definition host_stats (cluster : string) (hs : mo.HostSystem) : option hostStat :=
  hw ← types.Hardware (mo.Summary hs);
  let qs := types.QuickStats (mo.Summary hs) in
  let totalCPU := mul64 (int64 (types.CpuMhz hw)) (int64 (types.NumCpuCores hw)) in
  let freeCPU := sub64 (int64 totalCPU) (int64 (types.OverallCpuUsage qs)) in
  let freeMemory :=
    sub64 (int64 (types.MemorySize hw))
          (mul64 (mul64 (int64 (types.OverallMemoryUsage qs)) 1024) 1024) in
  config ← mo.Config hs;
  hardware ← mo.Hardware hs;
  Some
  {| Cluster := cluster;
     Host := types.Name (types.Config (mo.Summary hs));
     Build := types.Build (types.Product config);
     Version := types.Version (types.Product config);
     Model := types.Model (types.SystemInfo hardware);
     Vendor := types.Vendor (types.SystemInfo hardware);
     TotalCPU := totalCPU;
     FreeCPU := freeCPU;
     NumCpuPkgs := types.NumCpuPkgs hw;
     NumCpuCores := types.NumCpuCores hw;
     NumCpuThreads := types.NumCpuThreads hw;
     CpuModel := types.CpuModel hw;
     MemorySize := types.OverallMemoryUsage qs;
     OverallMemoryUsage := types.MemorySize hw;
     FreeMemory := freeMemory |}.

(** ** Endpoint jobs and sessions *)

(** [*govmomi.Client]: an open session, named by the URL it was opened
    with. *)
Record Client := { client_url : string }.

(** [Data] and [Worker] are exported fields like the first three: the
    decoder fills them in when the configuration file names them. *)
Record VCenter := {
  Hostname : string;
  Username : string;
  Password : string;
  client : option Client;   (* nil until [Connect] succeeds *)
  Data : list (list string);
  Worker : Z;
}.

(** [VCenters] is a slice of pointers: the decoder makes an object for
    each element of the configuration file but [null], for which it
    leaves nil. *)
Record Configuration := {
  Outpath : string;
  VCenters : list (option VCenter);  (* []*VCenter, by position *)
}.

Definition set_client (c : option Client) (v : VCenter) : VCenter :=
  {| Hostname := Hostname v; Username := Username v; Password := Password v;
     client := c; Data := Data v; Worker := Worker v |}.
Definition set_Data (d : list (list string)) (v : VCenter) : VCenter :=
  {| Hostname := Hostname v; Username := Username v; Password := Password v;
     client := client v; Data := d; Worker := Worker v |}.
Definition set_Worker (w : Z) (v : VCenter) : VCenter :=
  {| Hostname := Hostname v; Username := Username v; Password := Password v;
     client := client v; Data := Data v; Worker := w |}.

(** What the libraries and the remote endpoint answer to the calls made
    for one [VCenter]. *)
Record Endpoint := {
  url_Parse : option error;
  NewClient : option error;
  CreateContainerView : option error;
  Retrieve : result (list mo.HostSystem);
  RetrieveOne : types.ManagedObjectReference -> result string;
  Logout : option error;
}.

(** What the process does that can be observed from outside. *)
Inductive event :=
| Stdout (line : string)           (* fmt.Println *)
| LogoutCall (c : Client)          (* client.Logout *)
| LogFatal (msg : error).          (* log.Fatal, followed by os.Exit(1) *)

Definition worker_says (v : VCenter) (rest : list string) : event :=
  Stdout (Println ("Worker" :: FormatInt (Worker v) :: rest)).

Definition Connect (e : Endpoint) (v : VCenter)
  : VCenter * list event * option error :=
  let hello := worker_says v [": Connecting to vcenter:"; Hostname v] in
  let u := "https://" +:+ Username v +:+ ":" +:+ Password v +:+ "@"
             +:+ Hostname v +:+ "/sdk" in
  match url_Parse e with
  | Some err =>
      (v, [hello;
           worker_says v [": Could not parse vcenter url:"; Hostname v];
           Stdout (Println ["Error:"; err])], Some err)
  | None =>
      match NewClient e with
      | Some err =>
          (v, [hello;
               worker_says v [": Could not connect to vcenter:"; Hostname v];
               Stdout (Println ["Error:"; err])], Some err)
      | None => (set_client (Some {| client_url := u |}) v, [hello], None)
      end
  end.

Definition Disconnect (e : Endpoint) (v : VCenter) : list event * option error :=
  match client v with
  | Some c =>
      match Logout e with
      | Some err =>
          ([LogoutCall c;
            worker_says v [": Could not disconnect properly from vcenter:";
                           Hostname v; err]], Some err)
      | None => ([LogoutCall c], None)
      end
  | None => ([], None)
  end.

(** The loop of [Init] over the hosts: the rows are appended to [Data] one
    by one. The loop ends the process at the first host whose [Parent] is
    nil (a panic, before the lookup), whose cluster lookup fails
    ([log.Fatal]), or one of whose other pointers is nil (a panic, after
    the lookup). *)
Fixpoint Init_hosts (e : Endpoint) (hss : list mo.HostSystem) (v : VCenter)
  : VCenter * list event * outcome (option error) :=
  match hss with
  | [] => (v, [], Return None)
  | hs :: rest =>
      match mo.Parent hs with
      | None => (v, [], Panic)                      (* *hs.Parent *)
      | Some parent =>
          match RetrieveOne e parent with
          | Err err => (v, [LogFatal err], Exit 1)
          | Ok cluster =>
              match host_stats cluster hs with
              | None => (v, [], Panic)
              | Some stats =>
                  Init_hosts e rest (set_Data (Data v ++ [Slice stats]) v)
              end
          end
      end
  end.

(** [Init]; the [config] argument of the source is not used by it. *)
Definition Init (e : Endpoint) (v : VCenter)
  : VCenter * list event * outcome (option error) :=
  let hello := worker_says v [": Collecting data"] in
  match client v with
  | None => (v, [hello], Panic)            (* client.Client on a nil pointer *)
  | Some _ =>
      match CreateContainerView e with
      | Some err => (v, [hello; LogFatal err], Exit 1)
      | None =>
          match Retrieve e with
          | Err err => (v, [hello; LogFatal err], Exit 1)
          | Ok hss =>
              let '(v', evs, out) := Init_hosts e hss v in
              (v', hello :: evs, out)
          end
      end
  end.

(** ** The sink *)

(** The destination file, as the bytes it holds. *)
Definition file := list Byte.byte.

(** The bytes of the records [rows], as the writer puts them one after
    the other into its buffer. *)
Definition csv_bytes (rows : list (list string)) : list Byte.byte :=
  rows ≫= csv_Write.

(** A failure of the file system at one call. Either the file cannot be
    opened. Or the file accepts [n] more bytes and then fails: the
    records go through the buffer of the writer, so the bytes that reach
    the file may end inside a record; [seen] is the error when the
    failure comes up in a [Write] of the loop, which has flushed the
    full buffer, and [None] when it comes up only in the deferred
    [Flush], whose result is dropped. Which of the two happens depends
    on the size of the buffer, which is not modelled. *)
Inductive fault :=
| OpenFails (err : error)
| WriteFails (n : nat) (seen : option error).

(** The bytes a call that writes [out] adds to the file. *)
Definition accepted (ft : option fault) (out : list Byte.byte) : list Byte.byte :=
  match ft with
  | Some (OpenFails _) => []
  | Some (WriteFails n _) => take n out
  | None => out
  end.

(** [newCsv]: [os.Create] empties the file. The error of [Write] is
    dropped by the empty [if] body and that of the deferred [Flush] is
    not looked at, so [newCsv] returns nil once the file is open. *)
Definition newCsv (ft : option fault) (headers : list string) (path : string)
    (f : file) : file * option error :=
  match ft with
  | Some (OpenFails err) => (f, Some err)
  | _ => (accepted ft (csv_bytes [headers]), None)
  end.

(** [csvExport]: the file is opened for appending. A failure of the
    file system is returned when it comes up in a [Write] of the loop. *)
Definition csvExport (ft : option fault) (data : list (list string))
    (path : string) (f : file) : file * option error :=
  match ft with
  | Some (OpenFails err) => (f, Some err)
  | Some (WriteFails n seen) =>
      (f ++ accepted ft (csv_bytes data),
       if decide (n < length (csv_bytes data))%nat then seen else None)
  | None => (f ++ accepted ft (csv_bytes data), None)
  end.

(** ** The goroutines *)

(** The process is a state and a step function: the scheduler picks a
    goroutine, and the goroutine takes its next step if it is not blocked.
    A step is one channel operation or one call of the source ([Connect],
    [Init], [Disconnect], [csvExport]); a call is one step because only
    the worker that has received a [VCenter] touches it, until [main]
    reads it after the loop that waits. The [VCenter] objects are kept in
    a list, and a pointer to one is its position. *)

(** Where [main] stands, from the loop that starts the workers on. *)
Inductive main_pc :=
| MSpawn (i : nat)     (* for i, vcenter := range ...: Worker = i; go worker *)
| MSubmit (i : nat)    (* for _, vcenter := range ...: vcenters <- vcenter *)
| MClose               (* close(vcenters) *)
| MWait (i : nat)      (* for i := 0; i < vcenterCount; i++: <-done *)
| MExport (i : nat)    (* for _, vcenter := range ...: csvExport *)
| MReturned.

(** Where a worker stands; [j] is the position of the [VCenter] it
    received. *)
Inductive worker_pc :=
| WRange               (* for vcenter := range vcenters *)
| WConnect (j : nat)   (* vcenter.Connect() *)
| WInit (j : nat)      (* vcenter.Init(config) *)
| WDisconnect (j : nat)(* vcenter.Disconnect() *)
| WDone (j : nat)      (* done <- true *)
| WReturned.

Record state := {
  vcs : list (option VCenter);  (* config.VCenters and the objects it points to *)
  outpath : string;          (* config.Outpath *)
  pc : main_pc;
  workers : list worker_pc;  (* the goroutines started so far, by id *)
  queue : list nat;          (* the channel vcenters *)
  closed : bool;             (* whether vcenters is closed *)
  tokens : nat;              (* the channel done: tokens sent, not yet received *)
  disk : file;               (* the file at config.Outpath *)
  events : list event;
  status : option Z;         (* the exit status, once the process has ended *)
  signalled : list nat;      (* history: the jobs whose token was sent *)
}.

Definition set_vcs (x : list (option VCenter)) (s : state) : state :=
  {| vcs := x; outpath := outpath s; pc := pc s; workers := workers s;
     queue := queue s; closed := closed s; tokens := tokens s; disk := disk s;
     events := events s; status := status s; signalled := signalled s |}.
Definition set_pc (x : main_pc) (s : state) : state :=
  {| vcs := vcs s; outpath := outpath s; pc := x; workers := workers s;
     queue := queue s; closed := closed s; tokens := tokens s; disk := disk s;
     events := events s; status := status s; signalled := signalled s |}.
Definition set_workers (x : list worker_pc) (s : state) : state :=
  {| vcs := vcs s; outpath := outpath s; pc := pc s; workers := x;
     queue := queue s; closed := closed s; tokens := tokens s; disk := disk s;
     events := events s; status := status s; signalled := signalled s |}.
Definition set_queue (x : list nat) (s : state) : state :=
  {| vcs := vcs s; outpath := outpath s; pc := pc s; workers := workers s;
     queue := x; closed := closed s; tokens := tokens s; disk := disk s;
     events := events s; status := status s; signalled := signalled s |}.
Definition set_closed (x : bool) (s : state) : state :=
  {| vcs := vcs s; outpath := outpath s; pc := pc s; workers := workers s;
     queue := queue s; closed := x; tokens := tokens s; disk := disk s;
     events := events s; status := status s; signalled := signalled s |}.
Definition set_tokens (x : nat) (s : state) : state :=
  {| vcs := vcs s; outpath := outpath s; pc := pc s; workers := workers s;
     queue := queue s; closed := closed s; tokens := x; disk := disk s;
     events := events s; status := status s; signalled := signalled s |}.
Definition set_disk (x : file) (s : state) : state :=
  {| vcs := vcs s; outpath := outpath s; pc := pc s; workers := workers s;
     queue := queue s; closed := closed s; tokens := tokens s; disk := x;
     events := events s; status := status s; signalled := signalled s |}.
Definition emit (x : list event) (s : state) : state :=
  {| vcs := vcs s; outpath := outpath s; pc := pc s; workers := workers s;
     queue := queue s; closed := closed s; tokens := tokens s; disk := disk s;
     events := events s ++ x; status := status s; signalled := signalled s |}.
Definition set_status (x : option Z) (s : state) : state :=
  {| vcs := vcs s; outpath := outpath s; pc := pc s; workers := workers s;
     queue := queue s; closed := closed s; tokens := tokens s; disk := disk s;
     events := events s; status := x; signalled := signalled s |}.
Definition set_signalled (x : list nat) (s : state) : state :=
  {| vcs := vcs s; outpath := outpath s; pc := pc s; workers := workers s;
     queue := queue s; closed := closed s; tokens := tokens s; disk := disk s;
     events := events s; status := status s; signalled := x |}.

(** Worker [w] moves to [p]. *)
Definition goto (w : nat) (p : worker_pc) (s : state) : state :=
  set_workers (<[w := p]> (workers s)) s.

(** Everything outside the process: the answers of the endpoint of each
    [VCenter], the faults of the file system at [newCsv] and at each call
    of [csvExport], and what the file held before the run. *)
Record World := {
  endpoint : nat -> Endpoint;
  create_fault : string -> option fault;
  append_fault : string -> nat -> option fault;
  disk0 : file;
}.

Variable W : World.

(** A worker follows the pointer at position [j] and goes on with the
    object; when the pointer is nil the process ends by the panic, and
    its memory with it. *)
Definition with_object (s : state) (j : nat) (k : VCenter -> option state)
  : option state :=
  match vcs s !! j with
  | Some (Some v) => k v
  | Some None => Some (set_status (Some 2) s)
  | None => None
  end.

(** One step of [main]; [None] when it is blocked or has returned. Both
    channels have the capacity [vcenterCount]. *)
Definition main_step (s : state) : option state :=
  let vcenterCount := length (vcs s) in
  match pc s with
  | MSpawn i =>
      match vcs s !! i with
      | Some (Some v) =>
          Some (set_pc (MSpawn (S i))
                 (set_workers (workers s ++ [WRange])
                   (set_vcs (<[i := Some (set_Worker (Z.of_nat i) v)]> (vcs s)) s)))
      | Some None => Some (set_status (Some 2) s)   (* vcenter.Worker on nil *)
      | None => Some (set_pc (MSubmit 0) s)
      end
  | MSubmit i =>
      if decide (i < vcenterCount)%nat then
        if decide (length (queue s) < vcenterCount)%nat then
          Some (set_pc (MSubmit (S i)) (set_queue (queue s ++ [i]) s))
        else None
      else Some (set_pc MClose s)
  | MClose => Some (set_pc (MWait 0) (set_closed true s))
  | MWait i =>
      if decide (i < vcenterCount)%nat then
        match tokens s with
        | S t => Some (set_pc (MWait (S i)) (set_tokens t s))
        | O => None
        end
      else
        Some (set_pc (MExport 0) (emit [Stdout (Println ["Main : merging results..."])] s))
  | MExport i =>
      match vcs s !! i with
      | Some (Some v) =>
          let said :=
            Stdout (Println ["Main : worker"; FormatInt (Worker v); "got";
                             FormatInt (Z.of_nat (length (Data v)));
                             "results from"; Hostname v]) in
          let '(f, _) :=
            csvExport (append_fault W (outpath s) i) (Data v) (outpath s) (disk s) in
          Some (set_pc (MExport (S i)) (set_disk f (emit [said] s)))
      | Some None => Some (set_status (Some 2) s)   (* vcenter.Worker on nil *)
      | None =>
          Some (set_status (Some 0)
                 (set_pc MReturned
                   (emit [Stdout (Println ["Main : Results saved to"; outpath s])] s)))
      end
  | MReturned => None
  end.

(** One step of the worker with the id [w]; [vcenter], the pointer it
    received, is the position [j]. When the process ends inside [Init],
    its memory ends with it: the [VCenter] is not written back. *)
Definition worker_step (w : nat) (s : state) : option state :=
  let id := FormatInt (Z.of_nat w) in
  match workers s !! w with
  | None | Some WReturned => None
  | Some WRange =>
      match queue s with
      | j :: q =>
          with_object s j (λ v,
            Some (goto w (WConnect j)
                   (emit [Stdout (Println ["Worker"; id; ": Received vcenter job";
                                           Hostname v])]
                     (set_queue q s))))
      | [] => if closed s then Some (goto w WReturned s) else None
      end
  | Some (WConnect j) =>
      with_object s j (λ v,
        let '(v', evs, err) := Connect (endpoint W j) v in
        let s' := emit evs (set_vcs (<[j := Some v']> (vcs s)) s) in
        match err with
        | Some e =>
            Some (goto w (WDone j)
                   (emit [Stdout (Println ["Worker"; id;
                            ": Could not initialize connection to vcenter";
                            Hostname v'; e])] s'))
        | None => Some (goto w (WInit j) s')
        end)
  | Some (WInit j) =>
      with_object s j (λ v,
        let '(v', evs, out) := Init (endpoint W j) v in
        let s' := emit evs (set_vcs (<[j := Some v']> (vcs s)) s) in
        match out with
        | Return None =>
            Some (goto w (WDisconnect j)
                   (emit [Stdout (Println ["Worker"; id; ": Done"; Hostname v'])] s'))
        | Return (Some _) => Some (goto w (WDisconnect j) s')
        | Exit code => Some (set_status (Some code) (emit evs s))
        | Panic => Some (set_status (Some 2) (emit evs s))
        end)
  | Some (WDisconnect j) =>
      with_object s j (λ v,
        let '(evs, _) := Disconnect (endpoint W j) v in
        Some (goto w (WDone j) (emit evs s)))
  | Some (WDone j) =>
      if decide (tokens s < length (vcs s))%nat then
        Some (goto w WRange
               (set_signalled (signalled s ++ [j]) (set_tokens (S (tokens s)) s)))
      else None
  end.

(** The scheduler picks a goroutine. *)
Inductive action :=
| Main
| Work (w : nat).

Definition step (a : action) (s : state) : option state :=
  match status s with
  | Some _ => None
  | None =>
      match a with
      | Main => main_step s
      | Work w => worker_step w s
      end
  end.

(** A run under a schedule; picking a goroutine that cannot move changes
    nothing. *)
Fixpoint run (sch : list action) (s : state) : state :=
  match sch with
  | [] => s
  | a :: sch' =>
      match step a s with
      | Some s' => run sch' s'
      | None => run sch' s
      end
  end.

(** ** The beginning of [main] *)

(** What reading [config.json] gives: the file cannot be opened; or
    decoding fails, after filling in [partial]; or it succeeds. *)
Inductive config_file :=
| Unreadable
| Malformed (partial : Configuration)
| Decoded (c : Configuration).

Definition cfgFile : string := "config.json".

(** An error is printed, and [main] goes on with whatever [config] holds;
    decoding from the file that could not be opened fails in turn and
    leaves [config] empty. *)
Definition load_config (src : config_file) : Configuration * list event :=
  match src with
  | Unreadable =>
      ({| Outpath := ""; VCenters := [] |},
       [Stdout (Println ["Could not open configuration file"; cfgFile]);
        Stdout (Println ["Could not decode configuration file"; cfgFile])])
  | Malformed partial =>
      (partial, [Stdout (Println ["Could not decode configuration file"; cfgFile])])
  | Decoded c => (c, [])
  end.

Definition zero_hostStat : hostStat :=
  {| Cluster := ""; Host := ""; Version := ""; Build := ""; Vendor := "";
     Model := ""; NumCpuPkgs := 0; NumCpuCores := 0; NumCpuThreads := 0;
     CpuModel := ""; TotalCPU := 0; FreeCPU := 0; OverallMemoryUsage := 0;
     MemorySize := 0; FreeMemory := 0 |}.

(** [main] up to the creation of the channels: the state in which the
    goroutines start. The result of [newCsv] is not looked at. *)
Definition boot (src : config_file) : state :=
  let '(config, evs) := load_config src in
  let headers := Headers zero_hostStat in
  let '(f, _) := newCsv (create_fault W (Outpath config)) headers (Outpath config) (disk0 W) in
  let vcenterCount := length (VCenters config) in
  {| vcs := VCenters config;
     outpath := Outpath config;
     pc := MSpawn 0;
     workers := [];
     queue := [];
     closed := false;
     tokens := 0;
     disk := f;
     events := evs ++
       [Stdout (Println ["Main :"; FormatInt (Z.of_nat vcenterCount);
                         "vcenters to collect data from in config"]);
        Stdout (Println ["Main : Submitting job to workers"])];
     status := None;
     signalled := [] |}.

End Program.

(** ** What one job amounts to *)

(** The body of the loop of [worker] for one [VCenter], without the
    scheduling: [Connect], then [Init] when the connection succeeded
    ([Disconnect] does not change the [VCenter]). It gives the [VCenter] as
    the job leaves it, unless the process ends inside [Init]. *)
Definition lifecycle (bs : Z -> string) (e : Endpoint) (v : VCenter) : outcome VCenter :=
  let '(v1, _, err) := Connect e v in
  match err with
  | Some _ => Return v1
  | None =>
      let '(v2, _, out) := Init bs e v1 in
      match out with
      | Return _ => Return v2
      | Exit code => Exit code
      | Panic => Panic
      end
  end.

(** The rows one endpoint contributes: the [Data] of its [VCenter] after
    the job. *)
Definition endpoint_rows (bs : Z -> string) (e : Endpoint) (v : VCenter)
  : list (list string) :=
  match lifecycle bs e v with
  | Return v' => Data v'
  | _ => []
  end.

(** The bytes [csvExport] adds to the file for the batch [data]. *)
Definition written (csv : list string -> list Byte.byte) (ft : option fault)
    (data : list (list string)) : list Byte.byte :=
  accepted ft (csv_bytes csv data).

(** ** Invariants of the goroutines *)

(** The job a worker holds. *)
Definition holds (p : worker_pc) : list nat :=
  match p with
  | WConnect j | WInit j | WDisconnect j | WDone j => [j]
  | WRange | WReturned => []
  end.

Definition held (ws : list worker_pc) : list nat := ws ≫= holds.

(** How many jobs [main] has sent, how many tokens it has received, how
    many workers it has started and how many batches it has exported,
    by where it stands; [n] is [vcenterCount]. *)
Definition pushed (n : nat) (p : main_pc) : nat :=
  match p with MSpawn _ => 0 | MSubmit i => i | _ => n end.
Definition received (n : nat) (p : main_pc) : nat :=
  match p with MWait i => i | MExport _ | MReturned => n | _ => 0 end.
Definition spawned (n : nat) (p : main_pc) : nat :=
  match p with MSpawn i => i | _ => n end.
Definition exported (n : nat) (p : main_pc) : nat :=
  match p with MExport i => i | MReturned => n | _ => 0 end.
Definition after_close (p : main_pc) : bool :=
  match p with MSpawn _ | MSubmit _ | MClose => false | _ => true end.
Definition counter (p : main_pc) : nat :=
  match p with MSpawn i | MSubmit i | MWait i | MExport i => i | _ => 0 end.

(** Every job is in one place: signalled, held by one worker, in the queue
    or not yet sent; the tokens are those of the signalled jobs. *)
Record Inv_count (n : nat) (s : state) : Prop := {
  ic_jobs : signalled s ++ held (workers s) ++ queue s ≡ₚ seq 0 (pushed n (pc s));
  ic_tokens : (tokens s + received n (pc s))%nat = length (signalled s);
  ic_counter : (counter (pc s) ≤ n)%nat;
  ic_workers : length (workers s) = spawned n (pc s);
  ic_vcs : length (vcs s) = n;
  ic_closed : closed s = after_close (pc s);
  ic_returned : WReturned ∈ workers s → closed s = true ∧ queue s = [];
  ic_status : pc s = MReturned → status s = Some 0;
}.

Section Stages.
Variable bs : Z -> string.
Variable csv : list string -> list Byte.byte.
Variable W : World.

(** The [VCenter] at position [j], which the configuration gave as [v],
    when main has set its [Worker]. *)
Definition v0 (j : nat) (v : VCenter) : VCenter := set_Worker (Z.of_nat j) v.

(** What position [j] of [config.VCenters] holds while a worker that
    stands at [p] has the job; [v] is the object the configuration gave
    there. *)
Definition at_stage (p : worker_pc) (j : nat) (v : VCenter)
    (o : option (option VCenter)) : Prop :=
  let e := endpoint W j in
  match p with
  | WConnect _ => o = Some (Some (v0 j v))
  | WInit _ => (Connect e (v0 j v)).2 = None ∧ o = Some (Some (Connect e (v0 j v)).1.1)
  | WDisconnect _ =>
      (Connect e (v0 j v)).2 = None ∧
      ∃ vf, lifecycle bs e (v0 j v) = Return vf ∧ o = Some (Some vf)
  | WDone _ => ∃ vf, lifecycle bs e (v0 j v) = Return vf ∧ o = Some (Some vf)
  | WRange | WReturned => True
  end.

(** The objects are at the stage of their jobs; a nil pointer stays nil,
    and [main] does not get past it when it starts the workers. *)
Record Inv_data (cfg0 : list (option VCenter)) (s : state) : Prop := {
  id_held : ∀ w p j v, workers s !! w = Some p → j ∈ holds p →
      cfg0 !! j = Some (Some v) → at_stage p j v (vcs s !! j);
  id_signalled : ∀ j v, j ∈ signalled s → cfg0 !! j = Some (Some v) →
      at_stage (WDone j) j v (vcs s !! j);
  id_rest : ∀ j v, cfg0 !! j = Some (Some v) → j ∉ signalled s → j ∉ held (workers s) →
      vcs s !! j =
        Some (Some (if decide (j < spawned (length cfg0) (pc s))%nat then v0 j v else v));
  id_nil : ∀ j, cfg0 !! j = Some None →
      vcs s !! j = Some None ∧ (spawned (length cfg0) (pc s) ≤ j)%nat;
}.

(** The rows the job at position [j] leaves for the export, for the
    pointer [o] the configuration gave there; a nil pointer never gets
    to be a job. *)
Definition job_rows (j : nat) (o : option VCenter) : list (list string) :=
  match o with
  | Some v => endpoint_rows bs (endpoint W j) v
  | None => []
  end.

(** The file holds what [newCsv] left and the batches exported so far;
    the exit status is 0 only when [main] has returned. *)
Definition Inv_disk (cfg0 : list (option VCenter)) (path : string) (d0 : file)
    (s : state) : Prop :=
  outpath s = path ∧
  (status s = Some 0 → pc s = MReturned) ∧
  disk s = d0 ++ concat (imap (λ j o, written csv (append_fault W path j) (job_rows j o))
                              (take (exported (length cfg0) (pc s)) cfg0)).

(** The three invariants together. *)
Definition Inv (cfg0 : list (option VCenter)) (path : string) (d0 : file)
    (s : state) : Prop :=
  Inv_count (length cfg0) s ∧ Inv_data cfg0 s ∧ Inv_disk cfg0 path d0 s.

(** No pointer of the configuration is nil, and no job of it ends the
    process. *)
Definition all_return (cfg0 : list (option VCenter)) : Prop :=
  ∀ j o, cfg0 !! j = Some o →
    ∃ v vf, o = Some v ∧ lifecycle bs (endpoint W j) (v0 j v) = Return vf.

(** The line [worker] prints when [Connect] has failed. *)
Definition connect_failure_line (w : nat) (v : VCenter) (err : error) : event :=
  Stdout (Println ["Worker"; FormatInt (Z.of_nat w);
                   ": Could not initialize connection to vcenter"; Hostname v; err]).

(** The steps a state can still take are bounded by this measure. *)
Definition weight (p : worker_pc) : nat :=
  match p with
  | WReturned => 0 | WRange => 1 | WDone _ => 2 | WDisconnect _ => 3
  | WInit _ => 4 | WConnect _ => 5
  end.

Definition main_measure (n : nat) (p : main_pc) : nat :=
  match p with
  | MSpawn i => 3 * n + 5 + 2 * (n - i)
  | MSubmit i => 2 * n + 4 + (n - i)
  | MClose => 2 * n + 3
  | MWait i => n + 2 + (n - i)
  | MExport i => 1 + (n - i)
  | MReturned => 0
  end.

Definition measure (s : state) : nat :=
  let n := length (vcs s) in
  match status s with
  | Some _ => 0
  | None =>
      1 + main_measure n (pc s) + 5 * (length (queue s) + (n - pushed n (pc s)))
        + sum_list_with weight (workers s)
  end.

End Stages.

(** ** Statements about the record model *)

Section Schema.
Variable bs : Z -> string.

(** How [Slice] shows one field. *)
Definition render (f : field) (r : hostStat) : string :=
  match f with
  | FCluster => Cluster r
  | FHost => Host r
  | FVersion => Version r
  | FBuild => Build r
  | FVendor => Vendor r
  | FModel => Model r
  | FNumCpuPkgs => FormatInt (int64 (NumCpuPkgs r))
  | FNumCpuCores => FormatInt (int64 (NumCpuCores r))
  | FNumCpuThreads => FormatInt (int64 (NumCpuThreads r))
  | FCpuModel => CpuModel r
  | FTotalCPU => FormatInt (int64 (TotalCPU r))
  | FFreeCPU => FormatInt (int64 (FreeCPU r))
  | FOverallMemoryUsage => bs (int64 (OverallMemoryUsage r))
  | FMemorySize => bs (mul64 (mul64 (int64 (MemorySize r)) 1024) 1024)
  | FFreeMemory => bs (int64 (FreeMemory r))
  end.

(** Schema consistency as the specification words it: as many headers as
    values, and the header at each position names the field shown
    there. *)
Definition schema_consistent (r : hostStat) : Prop :=
  length (Headers r) = length (Slice bs r) ∧
  ∀ i f, struct_fields !! i = Some f →
    Headers r !! i = Some (field_name f) ∧ Slice bs r !! i = Some (render f r).

End Schema.

(** The order in which [Slice] lists the fields. *)
Definition slice_fields : list field :=
  [FCluster; FHost; FVersion; FBuild; FVendor; FModel;
   FNumCpuPkgs; FNumCpuCores; FNumCpuThreads; FCpuModel;
   FTotalCPU; FFreeCPU; FMemorySize; FOverallMemoryUsage; FFreeMemory].

(** The memory fields as the specification words them: [MemorySize] is
    the total memory of the host and [OverallMemoryUsage] its used memory,
    both in bytes, and [FreeMemory] is their difference; [hw] is the
    hardware summary of the host [hs]. *)
Definition memory_fields_as_stated (hs : mo.HostSystem)
    (hw : types.HostHardwareSummary) (r : hostStat) : Prop :=
  let total := types.MemorySize hw in
  let used := types.OverallMemoryUsage (types.QuickStats (mo.Summary hs)) * 1024 * 1024 in
  FreeMemory r = total - used ∧ MemorySize r = total ∧ OverallMemoryUsage r = used.

(** Position [k] of a list from which position [i] was deleted, in the
    list as it was. *)
Definition skip (i k : nat) : nat := if decide (k < i)%nat then k else S k.

(** ** Sample data *)

(** A byte count shown as a plain number of bytes, which is how
    [units.ByteSize] shows the counts below 1024. *)
Definition plain_bytes (z : Z) : string := FormatInt z +:+ "B".

(** The line of a record none of whose fields needs quotes: the fields
    separated by commas, and a line feed. *)
Definition plain_csv (row : list string) : list Byte.byte :=
  String.list_byte_of_string (String.concat "," row) ++ [Byte.x0a].

Definition sample_hardware : types.HostHardwareSummary :=
  {| types.CpuModel := "Xeon"; types.CpuMhz := 2000;
     types.NumCpuPkgs := 2; types.NumCpuCores := 10;
     types.NumCpuThreads := 20; types.MemorySize := 8589934592 |}.

Definition sample_host (name parent : string) : mo.HostSystem :=
  {| mo.Summary :=
       {| types.Hardware := Some sample_hardware;
          types.QuickStats :=
            {| types.OverallCpuUsage := 5000; types.OverallMemoryUsage := 2048 |};
          types.Config := {| types.Name := name |} |};
     mo.Parent := Some parent;
     mo.Hardware :=
       Some {| types.SystemInfo := {| types.Model := "R740"; types.Vendor := "Dell" |} |};
     mo.Config :=
       Some {| types.Product := {| types.Build := "123"; types.Version := "7.0" |} |} |}.

(** An endpoint that answers every call; one that refuses the
    connection; one whose third host has no cluster to look up; one that
    refuses the logout. *)
Definition endpoint_ok (hosts : list mo.HostSystem) : Endpoint :=
  {| url_Parse := None; NewClient := None; CreateContainerView := None;
     Retrieve := Ok hosts;
     RetrieveOne := λ ref, if decide (ref = "gone") then Err "lookup failed" else Ok "c1";
     Logout := None |}.

Definition endpoint_refusing : Endpoint :=
  {| url_Parse := None; NewClient := Some "dial tcp: no route to host";
     CreateContainerView := None; Retrieve := Ok [];
     RetrieveOne := λ _, Ok "c1"; Logout := None |}.

Definition endpoint_failing : Endpoint :=
  endpoint_ok [sample_host "esx1" "domain-c7"; sample_host "esx2" "domain-c7";
               sample_host "esx3" "gone"].

Definition sample_vcenter (h : string) : VCenter :=
  {| Hostname := h; Username := "u"; Password := "p"; client := None;
     Data := []; Worker := 0 |}.

Definition config_abc : Configuration :=
  {| Outpath := "out.csv";
     VCenters := [Some (sample_vcenter "a"); Some (sample_vcenter "b");
                  Some (sample_vcenter "c")] |}.

Definition config_a : Configuration :=
  {| Outpath := "out.csv"; VCenters := [Some (sample_vcenter "a")] |}.

(** The configuration file gives a row for [b]. *)
Definition config_b_row : Configuration :=
  {| Outpath := "out.csv";
     VCenters := [Some (sample_vcenter "a");
                  Some (set_Data [["x"; "y"]] (sample_vcenter "b"));
                  Some (sample_vcenter "c")] |}.

(** A file system on which every path but the empty one can be written,
    and on which the destination does not exist yet. *)
Definition no_faults (endpoints : nat → Endpoint) : World :=
  let open path :=
    if decide (path = "") then Some (OpenFails "open : no such file or directory")
    else None in
  {| endpoint := endpoints; create_fault := open;
     append_fault := λ path _, open path; disk0 := [] |}.

(** Three endpoints that answer; [b] has two hosts. *)
Definition world_ok : World :=
  no_faults (λ j, match j with
                  | 1%nat => endpoint_ok [sample_host "esx2" "domain-c7";
                                          sample_host "esx3" "domain-c7"]
                  | _ => endpoint_ok [sample_host "esx1" "domain-c7"]
                  end).

(** The endpoint [b] refuses the connection. *)
Definition world_refusing : World :=
  no_faults (λ j, match j with
                  | 1%nat => endpoint_refusing
                  | _ => endpoint_ok [sample_host "esx1" "domain-c7"]
                  end).

(** The collection of [b] fails at its third host. *)
Definition world_failing : World :=
  no_faults (λ j, match j with
                  | 1%nat => endpoint_failing
                  | _ => endpoint_ok [sample_host "esx1" "domain-c7"]
                  end).

(** The destination cannot be opened for writing. *)
Definition world_readonly : World :=
  {| endpoint := λ _, endpoint_ok [sample_host "esx1" "domain-c7"];
     create_fault := λ _, Some (OpenFails "permission denied");
     append_fault := λ _ _, Some (OpenFails "permission denied");
     disk0 := [] |}.

(** Schedules: the goroutines in turn; and one in which [main] runs up
    to the loop that waits, worker [j] takes the job [j], and the worker
    that has [b] moves only when the others are done. *)
Definition round_robin (n : nat) : list action :=
  concat (replicate n [Main; Work 0; Work 1; Work 2]%nat).

Definition b_last : list action :=
  replicate 9 Main ++ [Work 0; Work 1; Work 2]%nat ++
  concat (replicate 6 [Work 0; Work 2]%nat) ++ round_robin 12.

(** The collection of the only endpoint fails. *)
Definition world_a_failing : World := no_faults (λ _, endpoint_failing).

(** The sessions the process has logged out of, in order. *)
Definition logouts (evs : list event) : list Client :=
  omap (λ ev, match ev with LogoutCall c => Some c | _ => None end) evs.

(** The lines the process has printed, in order. *)
Definition printed (evs : list event) : list string :=
  omap (λ ev, match ev with Stdout l => Some l | _ => None end) evs.

(** ** Further statements about the run *)

(** The number of fields of the header row, and rows all of which have
    that many fields. *)
Definition width : nat := length (Headers zero_hostStat).

Definition rectangular (rows : list (list string)) : Prop :=
  Forall (λ row, length row = width) rows.

(** [v'] is [v] with its session and [Worker] perhaps set and rows
    perhaps added: same names and credentials, and the rows of [v] first. *)
Definition keeps_definition (v v' : VCenter) : Prop :=
  Hostname v' = Hostname v ∧ Username v' = Username v ∧
  Password v' = Password v ∧ Data v `prefix_of` Data v'.

(** The session [Connect] opens for the [VCenter] at position [j], if it
    succeeds. *)
Definition session_of (W : World) (cfg0 : list (option VCenter)) (j : nat)
  : list Client :=
  match cfg0 !! j with
  | Some (Some v) =>
      match Connect (endpoint W j) (v0 j v) with
      | (v1, _, None) => option_list (client v1)
      | _ => []
      end
  | _ => []
  end.

(** The jobs whose worker is about to send the token. *)
Definition finished (p : worker_pc) : list nat :=
  match p with WDone j => [j] | _ => [] end.

Definition done_jobs (ws : list worker_pc) : list nat := ws ≫= finished.

(** The line [main] prints for an endpoint before it exports its rows. *)
Definition summary_line (j : nat) (host : string) (rows : nat) : event :=
  Stdout (Println ["Main : worker"; FormatInt (Z.of_nat j); "got";
                   FormatInt (Z.of_nat rows); "results from"; host]).

(** The world [W] with other answers to [Logout]. *)
Definition with_Logout (l : nat → option error) (W : World) : World :=
  {| endpoint := λ j,
       {| url_Parse := url_Parse (endpoint W j);
          NewClient := NewClient (endpoint W j);
          CreateContainerView := CreateContainerView (endpoint W j);
          Retrieve := Retrieve (endpoint W j);
          RetrieveOne := RetrieveOne (endpoint W j);
          Logout := l j |};
     create_fault := create_fault W;
     append_fault := append_fault W;
     disk0 := disk0 W |}.

(** The numbers of a record that [Slice] prints in decimal are within
    their Go types. *)
Definition stat_in_range (r : hostStat) : Prop :=
  in_int 16 (NumCpuPkgs r) ∧ in_int 16 (NumCpuCores r) ∧
  in_int 16 (NumCpuThreads r) ∧ in_int 64 (TotalCPU r) ∧ in_int 64 (FreeCPU r).

(** [Init] builds the record [st] for the host [hs] of the endpoint [e]:
    [Parent] is set, the lookup of the cluster succeeds and the other
    pointers are set. *)
Definition builds (e : Endpoint) (st : hostStat) (hs : mo.HostSystem) : Prop :=
  ∃ parent c, mo.Parent hs = Some parent ∧ RetrieveOne e parent = Ok c ∧
              host_stats c hs = Some st.

(** [Init] panics at the host [hs] of the endpoint [e]: [Parent] is nil,
    or the lookup succeeds and another pointer is nil. *)
Definition panics_at (e : Endpoint) (hs : mo.HostSystem) : Prop :=
  mo.Parent hs = None ∨
  ∃ parent c, mo.Parent hs = Some parent ∧ RetrieveOne e parent = Ok c ∧
              host_stats c hs = None.

(** [log.Fatal] is called with [err] for the host [hs]: its cluster
    lookup fails. *)
Definition fatal_at (e : Endpoint) (hs : mo.HostSystem) (err : error) : Prop :=
  ∃ parent, mo.Parent hs = Some parent ∧ RetrieveOne e parent = Err err.

(** The call writes all its bytes or cannot open the file: no write
    fails. *)
Definition all_or_nothing (ft : option fault) : Prop :=
  match ft with
  | Some (WriteFails _ _) => False
  | _ => True
  end.

(** The disk is full when the rows of the second endpoint are written:
    the file takes 20 more bytes, and the failure comes up in the
    deferred [Flush]. *)
Definition world_disk_full : World :=
  {| endpoint := endpoint world_ok;
     create_fault := λ _, None;
     append_fault := λ _ k, match k with
                            | 1%nat => Some (WriteFails 20 None)
                            | _ => None
                            end;
     disk0 := [] |}.

(** The second element of [VCenters] is [null] in the configuration
    file. *)
Definition config_null : Configuration :=
  {| Outpath := "out.csv";
     VCenters := [Some (sample_vcenter "a"); None; Some (sample_vcenter "c")] |}.

(** A host for which the endpoint returned no [config]. *)
Definition host_without_config (name parent : string) : mo.HostSystem :=
  {| mo.Summary := mo.Summary (sample_host name parent);
     mo.Parent := Some parent;
     mo.Hardware := mo.Hardware (sample_host name parent);
     mo.Config := None |}.

(** The second host of [b] has no [config]. *)
Definition world_partial : World :=
  no_faults (λ j, match j with
                  | 1%nat => endpoint_ok [sample_host "esx2" "domain-c7";
                                          host_without_config "esx3" "domain-c7"]
                  | _ => endpoint_ok [sample_host "esx1" "domain-c7"]
                  end).

(** What [main] prints from the end of the loop that waits on: the line
    about merging, a line for each endpoint exported so far and, once it
    has returned, the line about the saved results. *)
Definition report (bs : Z → string) (W : World) (vs : list VCenter)
    (path : string) (p : main_pc) : list event :=
  let line := λ j v,
    summary_line j (Hostname v) (length (endpoint_rows bs (endpoint W j) v)) in
  match p with
  | MExport i =>
      Stdout (Println ["Main : merging results..."]) :: imap line (take i vs)
  | MReturned =>
      Stdout (Println ["Main : merging results..."]) :: imap line vs ++
        [Stdout (Println ["Main : Results saved to"; path])]
  | _ => []
  end.

(** * Proofs *)

(** ** The goroutines keep the invariants *)

Section Proofs.
Variable bs : Z -> string.
Variable csv : list string -> list Byte.byte.
Variable W : World.

(** The state after a step, from [Some s1 = Some s']. *)
Ltac taken H := injection H as <-.

(** *** Jobs held by the workers *)

Lemma held_app ws p : held (ws ++ [p]) = held ws ++ holds p.
Proof. unfold held. rewrite bind_app. simpl. by rewrite app_nil_r. Qed.

Lemma held_insert ws w p q :
  ws !! w = Some p → held (<[w:=q]> ws) ++ holds p ≡ₚ holds q ++ held ws.
Proof.
  revert w. induction ws as [|a ws IH]; intros [|w] Hw; simplify_eq/=.
  - unfold held; simpl. fold (held ws).
    rewrite (Permutation_app_comm (holds q ++ held ws)).
    rewrite !app_assoc. apply Permutation_app_tail, Permutation_app_comm.
  - unfold held; simpl. fold (held ws) (held (<[w:=q]> ws)).
    rewrite <- app_assoc, (IH _ Hw), !app_assoc.
    apply Permutation_app_tail, Permutation_app_comm.
Qed.

Lemma elem_of_held j ws :
  j ∈ held ws ↔ ∃ w p, ws !! w = Some p ∧ j ∈ holds p.
Proof.
  unfold held. rewrite list_elem_of_bind. split.
  - intros (p & Hj & Hp). apply list_elem_of_lookup in Hp as [w Hw]. eauto.
  - intros (w & p & Hw & Hj). exists p. split; [done|].
    apply list_elem_of_lookup. eauto.
Qed.

Lemma weight_insert ws w p q :
  ws !! w = Some p →
  (sum_list_with weight (<[w:=q]> ws) + weight p = sum_list_with weight ws + weight q)%nat.
Proof.
  revert w. induction ws as [|a ws IH]; intros [|w] Hw; simplify_eq/=; [lia|].
  specialize (IH _ Hw). lia.
Qed.

Lemma held_nil_inv ws : held ws = [] → ∀ w p, ws !! w = Some p → p = WRange ∨ p = WReturned.
Proof.
  intros Hh w p Hw. destruct (holds p) as [|j l] eqn:Hp.
  - destruct p; simplify_eq/=; auto.
  - assert (j ∈ held ws) as Hin.
    { apply elem_of_held. exists w, p. rewrite Hp. split; [done|]. left. }
    rewrite Hh in Hin. by apply elem_of_nil in Hin.
Qed.

(** *** Every job is in one place *)

(** A panic leaves the invariants as they are. *)
Lemma count_panic n s c :
  Inv_count n s → status s = None → Inv_count n (set_status (Some c) s).
Proof.
  intros [Hj Ht Hc Hw Hv Hcl Hr Hs] Hst. split; simpl; try done.
  intros Hx. rewrite (Hs Hx) in Hst. done.
Qed.

Lemma main_step_count n s s' :
  Inv_count n s → status s = None → main_step csv W s = Some s' → Inv_count n s'.
Proof.
  intros HI Hst Hstep. pose proof (count_panic n s 2 HI Hst) as Hpanic.
  destruct HI as [Hj Ht Hc Hw Hv Hcl Hr Hs]. unfold main_step in Hstep.
  destruct (pc s) eqn:Hpc; simpl in *.
  - (* MSpawn *)
    apply Permutation_nil_r in Hj.
    apply app_eq_nil in Hj as [Hsig Hj]. apply app_eq_nil in Hj as [Hheld Hq].
    destruct (vcs s !! i) as [[v|]|] eqn:Hi; taken Hstep; [|done|];
      split; simpl; rewrite ?Hpc; simpl; rewrite ?length_insert, ?length_app; simpl;
      try done; try lia.
    + rewrite held_app, Hsig, Hheld, Hq. done.
    + apply lookup_lt_Some in Hi. lia.
    + intros Hin. apply elem_of_app in Hin as [Hin|Hin]; [auto|].
      apply list_elem_of_singleton in Hin. done.
    + by rewrite Hsig, Hheld, Hq.
    + apply lookup_ge_None in Hi. lia.
  - (* MSubmit *)
    destruct (decide (i < length (vcs s))%nat) as [Hlt|Hge].
    + destruct (decide (length (queue s) < length (vcs s))%nat); [|done].
      taken Hstep.
      split; simpl; rewrite ?Hpc; simpl; try done; try lia.
      * change (0%nat :: seq 1 i) with (seq 0 (S i)). rewrite seq_S. simpl. rewrite !app_assoc. apply Permutation_app_tail.
        by rewrite <- app_assoc.
      * intros Hin. destruct (Hr Hin) as [Hx _]. by rewrite Hcl in Hx.
    + taken Hstep.
      split; simpl; rewrite ?Hpc; simpl; try done; try lia.
      assert (i = n) as -> by lia. done.
  - (* MClose *)
    taken Hstep.
    split; simpl; rewrite ?Hpc; simpl; try done; try lia.
    intros Hin. destruct (Hr Hin) as [Hx _]. by rewrite Hcl in Hx.
  - (* MWait *)
    destruct (decide (i < length (vcs s))%nat) as [Hlt|Hge].
    + destruct (tokens s) as [|t] eqn:Htok; [done|].
      taken Hstep.
      split; simpl; rewrite ?Hpc; simpl; try done; try lia.
    + taken Hstep.
      split; simpl; rewrite ?Hpc; simpl; try done; try lia.
  - (* MExport *)
    destruct (vcs s !! i) as [[v|]|] eqn:Hi.
    + destruct (csvExport _ _ _ _ _) as [f o]. taken Hstep.
      apply lookup_lt_Some in Hi.
      split; simpl; rewrite ?Hpc; simpl; try done; try lia.
    + by taken Hstep.
    + taken Hstep.
      split; simpl; rewrite ?Hpc; simpl; try done; try lia.
  - done.
Qed.

Lemma elem_of_insert_inv {A} (l : list A) i x y :
  y ∈ <[i:=x]> l → y = x ∨ y ∈ l.
Proof.
  intros Hy. apply list_elem_of_lookup in Hy as [k Hk].
  destruct (decide (i = k)) as [->|Hne].
  - destruct (decide (k < length l)%nat).
    + rewrite list_lookup_insert_eq in Hk by done. left. congruence.
    + rewrite list_insert_ge in Hk by lia. right. by eapply list_elem_of_lookup_2.
  - rewrite list_lookup_insert_ne in Hk by done. right. by eapply list_elem_of_lookup_2.
Qed.

Lemma held_goto ws w p q :
  ws !! w = Some p → holds p = holds q → held (<[w:=q]> ws) ≡ₚ held ws.
Proof.
  intros Hw Hpq. pose proof (held_insert ws w p q Hw) as H. rewrite Hpq in H.
  rewrite (Permutation_app_comm (holds q)) in H. by apply Permutation_app_inv_r in H.
Qed.

Lemma worker_step_count n w s s' :
  Inv_count n s → status s = None → worker_step bs W w s = Some s' → Inv_count n s'.
Proof.
  intros HI Hst Hstep. pose proof (count_panic n s 2 HI Hst) as Hpanic.
  destruct HI as [Hj Ht Hc Hw Hv Hcl Hr Hs]. unfold worker_step, with_object in Hstep.
  destruct (workers s !! w) as [p|] eqn:Hp; [|done].
  assert (∀ q x, q ≠ WReturned → x = WReturned → x ∈ <[w:=q]> (workers s) →
            WReturned ∈ workers s) as Hret.
  { intros q x Hq -> Hin. apply elem_of_insert_inv in Hin as [|]; [congruence|done]. }
  destruct p as [|j|j|j|j|]; simpl in *.
  - (* WRange *)
    destruct (queue s) as [|j q] eqn:Hq.
    + destruct (closed s) eqn:Hclosed; [|done].
      taken Hstep.
      split; simpl; rewrite ?length_insert; try done; try congruence.
      * by rewrite (held_goto _ _ _ WReturned Hp eq_refl), Hq.
    + destruct (vcs s !! j) as [[v|]|] eqn:Hv0; [|by taken Hstep|done].
      taken Hstep.
      split; simpl; rewrite ?length_insert; try done.
      * rewrite <- Hj. apply Permutation_app_head.
        pose proof (held_insert (workers s) w WRange (WConnect j) Hp) as H.
        rewrite app_nil_r in H. rewrite H. simpl. by rewrite Permutation_middle.
      * intros Hin. apply (Hret (WConnect j) _) in Hin; [|done..].
        destruct (Hr Hin) as [_ ?]. done.
  - (* WConnect *)
    destruct (vcs s !! j) as [[v|]|] eqn:Hv0; [|by taken Hstep|done].
    destruct (Connect _ _) as [[v' evs] [e|]];
      taken Hstep;
      split; simpl; rewrite ?length_insert; try done.
    + by rewrite (held_goto _ _ _ (WDone j) Hp eq_refl).
    + intros Hin. apply (Hret (WDone j) _) in Hin; auto.
    + by rewrite (held_goto _ _ _ (WInit j) Hp eq_refl).
    + intros Hin. apply (Hret (WInit j) _) in Hin; auto.
  - (* WInit *)
    destruct (vcs s !! j) as [[v|]|] eqn:Hv0; [|by taken Hstep|done].
    destruct (Init _ _ _) as [[v' evs] [[e|]|code|]];
      taken Hstep;
      split; simpl; rewrite ?length_insert; try done.
    all: try by rewrite (held_goto _ _ _ (WDisconnect j) Hp eq_refl).
    all: try (intros Hin; apply (Hret (WDisconnect j) _) in Hin; auto).
    all: intros Hx; rewrite Hs in Hst; done.
  - (* WDisconnect *)
    destruct (vcs s !! j) as [[v|]|] eqn:Hv0; [|by taken Hstep|done].
    destruct (Disconnect _ _) as [evs o].
    taken Hstep;
      split; simpl; rewrite ?length_insert; try done.
    + by rewrite (held_goto _ _ _ (WDone j) Hp eq_refl).
    + intros Hin. apply (Hret (WDone j) _) in Hin; auto.
  - (* WDone *)
    destruct (decide (tokens s < length (vcs s))%nat); [|done].
    taken Hstep;
      split; simpl; rewrite ?length_insert, ?length_app; simpl; try done; try lia.
    + rewrite <- Hj. rewrite <- !app_assoc. apply Permutation_app_head.
      pose proof (held_insert (workers s) w (WDone j) WRange Hp) as H.
      simpl in H. rewrite <- H.
      rewrite (app_assoc [j]). apply Permutation_app_tail, Permutation_app_comm.
    + intros Hin. apply elem_of_insert_inv in Hin as [|]; [done|auto].
  - done.
Qed.

Lemma step_count n a s s' : Inv_count n s → step bs csv W a s = Some s' → Inv_count n s'.
Proof.
  intros HI Hstep. unfold step in Hstep. destruct (status s) eqn:Hst; [done|].
  destruct a; eauto using main_step_count, worker_step_count.
Qed.

(** *** Consequences of the count *)

Lemma run_count n sch s : Inv_count n s → Inv_count n (run bs csv W sch s).
Proof.
  revert s. induction sch as [|a sch IH]; intros s HI; simpl; [done|].
  destruct (step bs csv W a s) eqn:Hstep; eauto using step_count.
Qed.

Lemma boot_count src :
  Inv_count (length (VCenters (load_config src).1)) (boot csv W src).
Proof.
  unfold boot. destruct (load_config src) as [config evs]. simpl.
  destruct (newCsv _ _ _ _) as [f o]. split; simpl; try done; try lia.
  intros Hin. by apply elem_of_nil in Hin.
Qed.

Lemma count_lengths n s :
  Inv_count n s →
  (length (signalled s) + length (held (workers s)) + length (queue s)
   = pushed n (pc s))%nat.
Proof.
  intros [Hj _ _ _ _ _ _ _]. apply Permutation_length in Hj.
  rewrite !length_app, length_seq in Hj. lia.
Qed.

Lemma count_NoDup n s :
  Inv_count n s → NoDup (signalled s ++ held (workers s) ++ queue s).
Proof. intros [Hj _ _ _ _ _ _ _]. rewrite Hj. apply NoDup_seq. Qed.

Lemma count_job_lt n s j :
  Inv_count n s → j ∈ signalled s ++ held (workers s) ++ queue s → (j < n)%nat.
Proof.
  intros HI Hin. pose proof (ic_counter _ _ HI) as Hc.
  rewrite (ic_jobs _ _ HI) in Hin. apply elem_of_seq in Hin.
  destruct (pc s); simpl in *; lia.
Qed.

(** Once [main] is past the loop that waits, every job has been
    signalled, exactly once, and no worker holds a job. *)
Lemma barrier n s :
  Inv_count n s → received n (pc s) = n → after_close (pc s) = true →
  signalled s ≡ₚ seq 0 n ∧ tokens s = 0%nat ∧ held (workers s) = [] ∧ queue s = [].
Proof.
  intros HI Hrec Hac. pose proof (count_lengths _ _ HI) as Hlen.
  pose proof (ic_tokens _ _ HI) as Ht. pose proof (ic_jobs _ _ HI) as Hj.
  assert (pushed n (pc s) = n) as Hp by (destruct (pc s); simpl in *; done).
  rewrite Hp in Hlen, Hj. rewrite Hrec in Ht.
  assert (held (workers s) = []) as Hh by (apply length_zero_iff_nil; lia).
  assert (queue s = []) as Hq by (apply length_zero_iff_nil; lia).
  rewrite Hh, Hq, !app_nil_r in Hj. repeat split; try done. lia.
Qed.

(** A goroutine can always move until the process has ended. *)
Lemma progress n s :
  Inv_count n s → status s = None → ∃ a s', step bs csv W a s = Some s'.
Proof.
  intros HI Hst. unfold step. rewrite Hst.
  pose proof (count_lengths _ _ HI) as Hlen.
  destruct HI as [Hj Ht Hc Hw Hv Hcl Hr Hs].
  destruct (pc s) eqn:Hpc; simpl in *.
  - exists Main. unfold main_step. rewrite Hpc. destruct (vcs s !! i) as [[v|]|]; eauto.
  - exists Main. unfold main_step. rewrite Hpc.
    destruct (decide (i < length (vcs s))%nat); [|eauto].
    destruct (decide (length (queue s) < length (vcs s))%nat); [eauto|lia].
  - exists Main. unfold main_step. rewrite Hpc. eauto.
  - destruct (decide (i < n)%nat) as [Hlt|Hge].
    2:{ exists Main. unfold main_step. rewrite Hpc.
        destruct (decide (i < length (vcs s))%nat); [lia|eauto]. }
    destruct (tokens s) as [|t] eqn:Htok.
    2:{ exists Main. unfold main_step. rewrite Hpc, Htok.
        destruct (decide (i < length (vcs s))%nat); [eauto|lia]. }
    (* main is blocked: some worker holds a job or can take one *)
    destruct (held (workers s)) as [|j hs] eqn:Hheld.
    + destruct (queue s) as [|j q] eqn:Hq; [simpl in *; lia|].
      destruct (workers s) as [|p ws] eqn:Hws; [simpl in *; lia|].
      exists (Work 0). unfold worker_step, with_object. rewrite Hws. simpl.
      assert (j ∈ seq 0 n) as Hjn.
      { rewrite <- Hj. rewrite !elem_of_app. right. right. left. }
      apply elem_of_seq in Hjn.
      destruct (vcs s !! j) as [o|] eqn:Hvj.
      2:{ apply lookup_ge_None in Hvj. lia. }
      destruct (held_nil_inv (p :: ws) Hheld 0 p eq_refl) as [->| ->].
      * rewrite Hq. simpl. rewrite Hvj. destruct o; eauto.
      * destruct Hr as [_ Hr]; [left|]. done.
    + assert (j ∈ held (workers s)) as Hin by (rewrite Hheld; left).
      apply elem_of_held in Hin as (w & p & Hw' & Hjp).
      assert (j ∈ seq 0 n) as Hjn.
      { rewrite <- Hj. rewrite !elem_of_app. right. left. left. }
      apply elem_of_seq in Hjn.
      destruct (vcs s !! j) as [o|] eqn:Hvj.
      2:{ apply lookup_ge_None in Hvj. lia. }
      exists (Work w). unfold worker_step, with_object. rewrite Hw'.
      destruct p; simpl in Hjp; try (by apply elem_of_nil in Hjp);
        apply list_elem_of_singleton in Hjp; subst j0; rewrite ?Hvj; simpl.
      * destruct o as [v|]; [|eauto].
        destruct (Connect _ _) as [[v' evs] [e|]]; eauto.
      * destruct o as [v|]; [|eauto].
        destruct (Init _ _ _) as [[v' evs] [[e|]|code|]]; eauto.
      * destruct o as [v|]; [|eauto].
        destruct (Disconnect _ _) as [evs o]; eauto.
      * rewrite Htok. destruct (decide (0 < length (vcs s))%nat); [eauto|lia].
  - exists Main. unfold main_step. rewrite Hpc.
    destruct (vcs s !! i) as [[v|]|]; [|eauto..].
    destruct (csvExport _ _ _ _ _). eauto.
  - rewrite Hs in Hst; done.
Qed.

(** *** Every step uses up the measure *)

Lemma main_step_measure s s' :
  status s = None → main_step csv W s = Some s' → (measure s' < measure s)%nat.
Proof.
  intros Hst Hstep. unfold main_step in Hstep. unfold measure. rewrite Hst.
  destruct (pc s) eqn:Hpc.
  - destruct (vcs s !! i) as [[v|]|] eqn:Hi; taken Hstep; simpl;
      rewrite ?Hst, ?Hpc, ?length_insert, ?sum_list_with_app; simpl.
    + apply lookup_lt_Some in Hi. lia.
    + lia.
    + lia.
  - destruct (decide (i < length (vcs s))%nat).
    + destruct (decide (length (queue s) < length (vcs s))%nat); [|done].
      taken Hstep; simpl.
      rewrite ?Hst, ?Hpc, ?length_app; simpl. lia.
    + taken Hstep; simpl. rewrite ?Hst, ?Hpc; simpl. lia.
  - taken Hstep; simpl. rewrite ?Hst, ?Hpc; simpl. lia.
  - destruct (decide (i < length (vcs s))%nat).
    + destruct (tokens s); [done|].
      taken Hstep; simpl. rewrite ?Hst, ?Hpc; simpl. lia.
    + taken Hstep; simpl. rewrite ?Hst, ?Hpc; simpl. lia.
  - destruct (vcs s !! i) as [[v|]|] eqn:Hi.
    + destruct (csvExport _ _ _ _ _). apply lookup_lt_Some in Hi.
      taken Hstep; simpl. rewrite ?Hst, ?Hpc; simpl. lia.
    + taken Hstep; simpl. lia.
    + taken Hstep; simpl. lia.
  - done.
Qed.

Lemma worker_step_measure w s s' :
  status s = None → worker_step bs W w s = Some s' → (measure s' < measure s)%nat.
Proof.
  intros Hst Hstep. unfold worker_step, with_object in Hstep. unfold measure. rewrite Hst.
  destruct (workers s !! w) as [p|] eqn:Hp; [|done].
  pose proof (λ q, weight_insert (workers s) w p q Hp) as Hwt.
  destruct p as [|j|j|j|j|]; simpl in *.
  - destruct (queue s) as [|j q] eqn:Hq.
    + destruct (closed s); [|done]. specialize (Hwt WReturned).
      taken Hstep; simpl. rewrite ?Hst, ?Hq; simpl in *. lia.
    + destruct (vcs s !! j) as [[v|]|]; [|taken Hstep; simpl; lia|done].
      specialize (Hwt (WConnect j)).
      taken Hstep; simpl. rewrite ?Hst; simpl in *. lia.
  - destruct (vcs s !! j) as [[v|]|]; [|taken Hstep; simpl; lia|done].
    pose proof (Hwt (WDone j)). pose proof (Hwt (WInit j)).
    destruct (Connect _ _) as [[v' evs] [e|]];
      taken Hstep; simpl;
      rewrite ?Hst, ?length_insert; simpl in *; lia.
  - destruct (vcs s !! j) as [[v|]|]; [|taken Hstep; simpl; lia|done].
    pose proof (Hwt (WDisconnect j)).
    destruct (Init _ _ _) as [[v' evs] [[e|]|code|]];
      taken Hstep; simpl;
      rewrite ?Hst, ?length_insert; simpl in *; lia.
  - destruct (vcs s !! j) as [[v|]|]; [|taken Hstep; simpl; lia|done].
    pose proof (Hwt (WDone j)).
    destruct (Disconnect _ _) as [evs o].
    taken Hstep; simpl;
      rewrite ?Hst, ?length_insert; simpl in *; lia.
  - destruct (decide (tokens s < length (vcs s))%nat); [|done].
    pose proof (Hwt WRange).
    taken Hstep; simpl;
      rewrite ?Hst, ?length_insert; simpl in *; lia.
  - done.
Qed.

Lemma step_measure a s s' :
  step bs csv W a s = Some s' → (measure s' < measure s)%nat.
Proof.
  unfold step. destruct (status s) eqn:Hst; [done|].
  destruct a; eauto using main_step_measure, worker_step_measure.
Qed.

(** From every state the goroutines can reach, some schedule ends the
    process: the program neither deadlocks nor runs for ever. *)
Lemma terminates n s :
  Inv_count n s → ∃ sch, status (run bs csv W sch s) ≠ None.
Proof.
  remember (measure s) as m eqn:Hm. revert s Hm.
  induction (lt_wf m) as [m _ IH]. intros s -> HI.
  destruct (status s) eqn:Hst.
  - exists []. simpl. by rewrite Hst.
  - destruct (progress n s HI Hst) as (a & s' & Hstep).
    destruct (IH (measure s') (step_measure _ _ _ Hstep) s' eq_refl) as [sch Hsch].
    { by eapply step_count. }
    exists (a :: sch). simpl. by rewrite Hstep.
Qed.

(** *** Every [VCenter] is where its job has got to *)

Lemma held_distinct ws w w' p p' j :
  NoDup (held ws) → ws !! w = Some p → ws !! w' = Some p' →
  j ∈ holds p → j ∈ holds p' → w = w'.
Proof.
  revert w w'. induction ws as [|a ws IH]; intros w w' Hnd Hw Hw' Hj Hj'; [done|].
  unfold held in Hnd. rewrite bind_cons in Hnd. fold (held ws) in Hnd.
  apply NoDup_app in Hnd as (_ & Hdisj & Hnd).
  destruct w as [|w], w' as [|w']; simplify_eq/=; try done.
  - exfalso. apply (Hdisj j Hj). apply elem_of_held. eauto.
  - exfalso. apply (Hdisj j Hj'). apply elem_of_held. eauto.
  - f_equal. eauto.
Qed.

Lemma holds_singleton p j : j ∈ holds p → holds p = [j].
Proof.
  destruct p; simpl; intros Hin; try (by apply elem_of_nil in Hin);
    apply list_elem_of_singleton in Hin; by subst.
Qed.

(** A job that has been sent is not a nil pointer: [main] has got past
    every position when it sends the first one. *)
Lemma job_not_nil cfg0 s j :
  Inv_count (length cfg0) s → Inv_data bs W cfg0 s →
  j ∈ signalled s ++ held (workers s) ++ queue s → ∃ v, cfg0 !! j = Some (Some v).
Proof.
  intros HC HD Hin. pose proof (ic_counter _ _ HC) as Hc.
  rewrite (ic_jobs _ _ HC) in Hin. apply elem_of_seq in Hin.
  destruct (cfg0 !! j) as [[v|]|] eqn:Hj; [by eexists| |].
  - destruct (id_nil _ _ _ _ HD j Hj) as [_ Hsp].
    destruct (pc s); simpl in *; lia.
  - apply lookup_ge_None in Hj. destruct (pc s); simpl in *; lia.
Qed.

(** A worker that holds job [j] moves on, and leaves [v'] at position
    [j]. *)
Lemma data_move cfg0 s s' w p q j v' :
  Inv_count (length cfg0) s → Inv_data bs W cfg0 s →
  workers s !! w = Some p → holds p = [j] → holds q = [j] →
  (∀ v, cfg0 !! j = Some (Some v) → at_stage bs W p j v (vcs s !! j) →
        at_stage bs W q j v (Some (Some v'))) →
  workers s' = <[w:=q]> (workers s) → vcs s' = <[j:=Some v']> (vcs s) →
  signalled s' = signalled s → pc s' = pc s →
  Inv_data bs W cfg0 s'.
Proof.
  intros HC HD Hw Hp Hq Hst Ew Ev Es Epc.
  pose proof (count_NoDup _ _ HC) as Hnd.
  assert (j ∈ held (workers s)) as Hjh.
  { apply elem_of_held. exists w, p. rewrite Hp. split; [done|left]. }
  assert (j < length (vcs s))%nat as Hlt.
  { rewrite (ic_vcs _ _ HC). eapply count_job_lt; [done|].
    rewrite !elem_of_app. eauto. }
  destruct (job_not_nil cfg0 s j HC HD) as [vj Hvj].
  { rewrite !elem_of_app. eauto. }
  destruct HD as [Hh Hs Hr Hn].
  apply NoDup_app in Hnd as (_ & Hdisj1 & Hnd). apply NoDup_app in Hnd as (Hndh & _ & _).
  split; rewrite ?Ew, ?Ev, ?Es, ?Epc.
  - intros w' p' j' v Hw' Hj' Hc.
    apply list_lookup_insert_Some in Hw' as [(<- & <- & _)|(Hne & Hw')].
    + rewrite Hq in Hj'. apply list_elem_of_singleton in Hj'. subst j'.
      rewrite list_lookup_insert_eq by done. apply Hst; [done|].
      eapply Hh; eauto. rewrite Hp. left.
    + assert (j' ≠ j) as Hjj.
      { intros ->. apply Hne. eapply held_distinct; eauto. rewrite Hp. left. }
      rewrite list_lookup_insert_ne by done. eauto.
  - intros j' v Hj' Hc.
    assert (j' ≠ j) as Hjj.
    { intros ->. apply (Hdisj1 j Hj'). rewrite elem_of_app. by left. }
    rewrite list_lookup_insert_ne by done. eauto.
  - intros j' v Hc Hns Hnh.
    rewrite (held_goto _ _ p q Hw) in Hnh by congruence.
    assert (j' ≠ j) as Hjj by (intros ->; done).
    rewrite list_lookup_insert_ne by done. eauto.
  - intros j' Hc. assert (j' ≠ j) as Hjj by (intros ->; congruence).
    rewrite list_lookup_insert_ne by done. eauto.
Qed.

(** A process that has ended takes no step. *)
Lemma status_run sch s : status s ≠ None → run bs csv W sch s = s.
Proof.
  intros Hst. induction sch as [|a sch IH]; simpl; [done|].
  unfold step. destruct (status s); done.
Qed.

Lemma lifecycle_connect_err e v v' evs err :
  Connect e v = (v', evs, Some err) → lifecycle bs e v = Return v'.
Proof. intros H. unfold lifecycle. by rewrite H. Qed.

Lemma lifecycle_init e v v1 evs1 :
  Connect e v = (v1, evs1, None) →
  lifecycle bs e v =
    match (Init bs e v1).2 with
    | Return _ => Return (Init bs e v1).1.1
    | Exit code => Exit code
    | Panic => Panic
    end.
Proof.
  intros H. unfold lifecycle. rewrite H.
  by destruct (Init bs e v1) as [[v2 evs2] [r|code|]].
Qed.

(** A step that leaves the workers, the objects and the signalled jobs
    alone, and [main] in the same loop. *)
Lemma data_same cfg0 s s' :
  Inv_data bs W cfg0 s →
  workers s' = workers s → vcs s' = vcs s → signalled s' = signalled s →
  spawned (length cfg0) (pc s') = spawned (length cfg0) (pc s) →
  Inv_data bs W cfg0 s'.
Proof.
  intros [Hh Hs Hr Hn] Ew Ev Es Ep. split; rewrite ?Ew, ?Ev, ?Es, ?Ep; done.
Qed.

Lemma main_step_data cfg0 s s' :
  Inv_count (length cfg0) s → Inv_data bs W cfg0 s → status s = None →
  main_step csv W s = Some s' → Inv_data bs W cfg0 s'.
Proof.
  intros HC HD Hst Hstep.
  pose proof (data_same cfg0 s) as Hsame. specialize (λ s', Hsame s' HD).
  unfold main_step in Hstep. destruct (pc s) eqn:Hpc.
  - (* MSpawn *)
    pose proof (ic_jobs _ _ HC) as Hj. rewrite Hpc in Hj. simpl in Hj.
    apply Permutation_nil_r in Hj.
    apply app_eq_nil in Hj as [Hsig Hj]. apply app_eq_nil in Hj as [Hheld Hq].
    destruct (vcs s !! i) as [[vi|]|] eqn:Hi; taken Hstep.
    + destruct HD as [Hh Hs Hr Hn]. split; simpl.
      * intros w p j v Hw Hjp _. exfalso.
        assert (j ∈ held (workers s ++ [WRange])) as Hin.
        { apply elem_of_held. eauto. }
        rewrite held_app, Hheld in Hin. simpl in Hin. by apply elem_of_nil in Hin.
      * intros j v Hin. rewrite Hsig in Hin. by apply elem_of_nil in Hin.
      * intros j v Hc _ _. specialize (Hr j v Hc).
        rewrite Hsig, Hheld, Hpc in Hr. simpl in Hr.
        specialize (Hr ltac:(apply not_elem_of_nil) ltac:(apply not_elem_of_nil)).
        destruct (decide (j = i)) as [->|Hne].
        -- rewrite list_lookup_insert_eq by (by eapply lookup_lt_Some).
           rewrite decide_False in Hr by lia. rewrite decide_True by lia.
           unfold v0. congruence.
        -- rewrite list_lookup_insert_ne by done. rewrite Hr.
           destruct (decide (j < i)%nat); [rewrite decide_True by lia|rewrite decide_False by lia]; done.
      * intros j Hc. destruct (Hn j Hc) as [Hv Hsp]. rewrite Hpc in Hsp. simpl in Hsp.
        assert (j ≠ i) as Hne by (intros ->; congruence).
        rewrite list_lookup_insert_ne by done. split; [done|lia].
    + apply Hsame; simpl; rewrite ?Hpc; done.
    + destruct HD as [Hh Hs Hr Hn]. split; simpl; try done.
      * intros j v Hc Hns Hnh. rewrite (Hr j v Hc Hns Hnh), Hpc. simpl.
        apply lookup_ge_None in Hi. rewrite (ic_vcs _ _ HC) in Hi.
        pose proof (lookup_lt_Some _ _ _ Hc).
        rewrite !decide_True by lia. done.
      * intros j Hc. destruct (Hn j Hc) as [Hv Hsp]. rewrite Hpc in Hsp. simpl in Hsp.
        apply lookup_ge_None in Hi. apply lookup_lt_Some in Hv. lia.
  - destruct (decide (i < length (vcs s))%nat).
    + destruct (decide (length (queue s) < length (vcs s))%nat); [|done].
      taken Hstep. apply Hsame; simpl; rewrite ?Hpc; done.
    + taken Hstep. apply Hsame; simpl; rewrite ?Hpc; done.
  - taken Hstep. apply Hsame; simpl; rewrite ?Hpc; done.
  - destruct (decide (i < length (vcs s))%nat).
    + destruct (tokens s); [done|].
      taken Hstep. apply Hsame; simpl; rewrite ?Hpc; done.
    + taken Hstep. apply Hsame; simpl; rewrite ?Hpc; done.
  - destruct (vcs s !! i) as [[vi|]|] eqn:Hi.
    + destruct (csvExport _ _ _ _ _).
      taken Hstep. apply Hsame; simpl; rewrite ?Hpc; done.
    + taken Hstep. apply Hsame; simpl; rewrite ?Hpc; done.
    + taken Hstep. apply Hsame; simpl; rewrite ?Hpc; done.
  - done.
Qed.

(** A worker that holds no job moves on, perhaps taking the job [q]
    holds. *)
Lemma data_take cfg0 s s' w p q :
  Inv_data bs W cfg0 s →
  workers s !! w = Some p → holds p = [] →
  (∀ j v, j ∈ holds q → cfg0 !! j = Some (Some v) → at_stage bs W q j v (vcs s !! j)) →
  workers s' = <[w:=q]> (workers s) → vcs s' = vcs s →
  signalled s' = signalled s → pc s' = pc s →
  Inv_data bs W cfg0 s'.
Proof.
  intros [Hh Hs Hr Hn] Hw Hp Hq Ew Ev Es Epc.
  split; rewrite ?Ew, ?Ev, ?Es, ?Epc; [|done| |done].
  - intros w' p' j' v Hw' Hj' Hc.
    apply list_lookup_insert_Some in Hw' as [(<- & <- & _)|(Hne & Hw')]; eauto.
  - intros j' v Hc Hns Hnh. apply Hr; [done..|].
    intros Hin. apply Hnh.
    pose proof (held_insert (workers s) w p q Hw) as Hperm.
    rewrite Hp, app_nil_r in Hperm. rewrite Hperm, elem_of_app. by right.
Qed.

Lemma Init_hosts_exit_code e hss v v' evs code :
  Init_hosts bs e hss v = (v', evs, Exit code) → code = 1.
Proof.
  revert v. induction hss as [|hs hss IH]; intros v; simpl; [done|].
  destruct (mo.Parent hs); [|done]. destruct (RetrieveOne e _); [|congruence].
  destruct (host_stats _ _); [apply IH|done].
Qed.

Lemma Init_exit_code e v v' evs code :
  Init bs e v = (v', evs, Exit code) → code = 1.
Proof.
  unfold Init. destruct (client v); [|done].
  destruct (CreateContainerView e); [congruence|].
  destruct (Retrieve e) as [hss|]; [|congruence].
  destruct (Init_hosts bs e hss v) as [[v2 evs2] out] eqn:Hh. intros H.
  simplify_eq. by eapply Init_hosts_exit_code.
Qed.

Lemma worker_step_data cfg0 w s s' :
  Inv_count (length cfg0) s → Inv_data bs W cfg0 s → status s = None →
  worker_step bs W w s = Some s' → Inv_data bs W cfg0 s'.
Proof.
  intros HC HD Hst Hstep. unfold worker_step, with_object in Hstep.
  assert (∀ c evs, Inv_data bs W cfg0 (set_status (Some c) (emit evs s))) as Hend.
  { intros c evs. by apply (data_same cfg0 s). }
  assert (Inv_data bs W cfg0 (set_status (Some 2) s)) as Hpanic.
  { by apply (data_same cfg0 s). }
  destruct (workers s !! w) as [p|] eqn:Hp; [|done].
  destruct p as [|j|j|j|j|]; simpl in *.
  - (* WRange *)
    destruct (queue s) as [|j q] eqn:Hq.
    + destruct (closed s); [|done]. taken Hstep.
      eapply (data_take _ s _ w WRange WReturned); eauto.
      intros j v Hin. by apply elem_of_nil in Hin.
    + destruct (vcs s !! j) as [[vv|]|] eqn:Hvj; [|by taken Hstep|done].
      taken Hstep.
      eapply (data_take _ s _ w WRange (WConnect j)); eauto.
      intros j' v Hin Hc. apply list_elem_of_singleton in Hin. subst j'. simpl.
      pose proof (count_NoDup _ _ HC) as Hnd. rewrite Hq in Hnd.
      rewrite (id_rest _ _ _ _ HD j v Hc).
      * pose proof (lookup_lt_Some _ _ _ Hc).
        destruct (pc s) eqn:Hpc; simpl; try (by rewrite decide_True by lia).
        pose proof (ic_jobs _ _ HC) as Hj. rewrite Hpc, Hq in Hj. simpl in Hj.
        apply Permutation_nil_r in Hj. apply app_eq_nil in Hj as [_ Hj].
        apply app_eq_nil in Hj as [_ Hj]. done.
      * intros Hin. apply NoDup_app in Hnd as (_ & Hdisj & _).
        apply (Hdisj j Hin). rewrite elem_of_app. right. left.
      * intros Hin. apply NoDup_app in Hnd as (_ & _ & Hnd).
        apply NoDup_app in Hnd as (_ & Hdisj & _). apply (Hdisj j Hin). left.
  - (* WConnect *)
    destruct (vcs s !! j) as [[vv|]|] eqn:Hvj; [|by taken Hstep|done].
    destruct (Connect _ _) as [[v' evs] [e|]] eqn:Hconn;
      taken Hstep.
    + eapply (data_move _ s _ w (WConnect j) (WDone j) j v'); eauto.
      intros v Hc Hat. simpl in Hat. rewrite Hvj in Hat. simplify_eq. simpl.
      exists v'. split; [|done]. by eapply lifecycle_connect_err.
    + eapply (data_move _ s _ w (WConnect j) (WInit j) j v'); eauto.
      intros v Hc Hat. simpl in Hat. rewrite Hvj in Hat. simplify_eq. simpl.
      by rewrite Hconn.
  - (* WInit *)
    destruct (vcs s !! j) as [[vv|]|] eqn:Hvj; [|by taken Hstep|done].
    destruct (Init _ _ _) as [[v' evs] out] eqn:Hinit.
    assert (∀ r, out = Return r →
              Inv_data bs W cfg0
                (goto w (WDisconnect j)
                   (emit evs (set_vcs (<[j:=Some v']> (vcs s)) s)))) as Hret.
    { intros r ->.
      eapply (data_move _ s _ w (WInit j) (WDisconnect j) j v'); eauto.
      intros v Hc [Hok Hat]. rewrite Hvj in Hat. simplify_eq. simpl.
      split; [done|]. exists v'. split; [|done].
      destruct (Connect (endpoint W j) (v0 j v)) as [[v1 evs1] err] eqn:Hconn.
      simpl in *. subst err. rewrite (lifecycle_init _ _ _ _ Hconn), Hinit. done. }
    destruct out as [[e|]|code|]; taken Hstep; [| |done..].
    + by eapply Hret.
    + by apply (data_same cfg0 (goto w (WDisconnect j)
                  (emit evs (set_vcs (<[j:=Some v']> (vcs s)) s)))); [eapply Hret|..].
  - (* WDisconnect *)
    destruct (vcs s !! j) as [[vv|]|] eqn:Hvj; [|by taken Hstep|done].
    destruct (Disconnect _ _) as [evs o].
    taken Hstep.
    eapply (data_move _ s _ w (WDisconnect j) (WDone j) j vv); eauto.
    + intros v Hc (_ & vf & Hl & Hat). rewrite Hvj in Hat. simplify_eq. simpl. eauto.
    + simpl. by rewrite list_insert_id.
  - (* WDone *)
    destruct (decide (tokens s < length (vcs s))%nat); [|done].
    taken Hstep.
    destruct HD as [Hh Hs Hr Hn]. split; simpl.
    + intros w' p' j' v Hw' Hj' Hc.
      apply list_lookup_insert_Some in Hw' as [(<- & <- & _)|(Hne & Hw')]; eauto.
      by apply elem_of_nil in Hj'.
    + intros j' v Hin Hc. apply elem_of_app in Hin as [Hin|Hin]; [by apply Hs|].
      apply list_elem_of_singleton in Hin. subst j'.
      apply (Hh w (WDone j) j v Hp); [left|done].
    + intros j' v Hc Hns Hnh. rewrite elem_of_app in Hns.
      apply Hr; [done|tauto|]. intros Hin.
      pose proof (held_insert (workers s) w (WDone j) WRange Hp) as Hperm.
      simpl in Hperm. rewrite <- Hperm in Hin.
      apply elem_of_app in Hin as [Hin|Hin]; [done|]. tauto.
    + done.
  - done.
Qed.

Lemma step_data cfg0 a s s' :
  Inv_count (length cfg0) s → Inv_data bs W cfg0 s →
  step bs csv W a s = Some s' → Inv_data bs W cfg0 s'.
Proof.
  intros HC HD Hstep. unfold step in Hstep.
  destruct (status s) eqn:Hst; [done|].
  destruct a; eauto using main_step_data, worker_step_data.
Qed.

Lemma run_data cfg0 sch s :
  Inv_count (length cfg0) s → Inv_data bs W cfg0 s →
  Inv_data bs W cfg0 (run bs csv W sch s).
Proof.
  revert s. induction sch as [|a sch IH]; intros s HC HD; simpl in *; [done|].
  destruct (step bs csv W a s) as [s'|] eqn:Hstep; eauto using step_count, step_data.
Qed.

Lemma boot_data src :
  Inv_data bs W (VCenters (load_config src).1) (boot csv W src).
Proof.
  unfold boot. destruct (load_config src) as [config evs]. simpl.
  destruct (newCsv _ _ _ _ _) as [f o]. split; simpl.
  - intros w p j v Hw. done.
  - intros j v Hin. by apply elem_of_nil in Hin.
  - intros j v Hc _ _. done.
  - intros j Hc. split; [done|lia].
Qed.

(** *** The file holds the batches exported so far *)

(** The rows of an endpoint do not depend on the [Worker] number. *)
Lemma Connect_set_Worker e z v :
  (Connect e (set_Worker z v)).1.1 = set_Worker z (Connect e v).1.1 ∧
  (Connect e (set_Worker z v)).2 = (Connect e v).2.
Proof. unfold Connect. destruct (url_Parse e), (NewClient e); done. Qed.

Lemma Init_hosts_set_Worker e z hss v :
  Init_hosts bs e hss (set_Worker z v) =
  (set_Worker z (Init_hosts bs e hss v).1.1, (Init_hosts bs e hss v).1.2,
   (Init_hosts bs e hss v).2).
Proof.
  revert v. induction hss as [|hs hss IH]; intros v; simpl; [done|].
  destruct (mo.Parent hs) as [parent|]; [|done].
  destruct (RetrieveOne e parent) as [cluster|err]; [|done].
  destruct (host_stats cluster hs) as [stats|]; [|done].
  apply (IH (set_Data _ v)).
Qed.

Lemma Init_set_Worker e z v :
  (Init bs e (set_Worker z v)).1.1 = set_Worker z (Init bs e v).1.1 ∧
  (Init bs e (set_Worker z v)).2 = (Init bs e v).2.
Proof.
  unfold Init. simpl. destruct (client v); [|done].
  destruct (CreateContainerView e); [done|]. destruct (Retrieve e) as [hss|]; [|done].
  rewrite Init_hosts_set_Worker.
  destruct (Init_hosts bs e hss v) as [[v' evs] out]; done.
Qed.

Lemma endpoint_rows_set_Worker e z v :
  endpoint_rows bs e (set_Worker z v) = endpoint_rows bs e v.
Proof.
  unfold endpoint_rows, lifecycle.
  destruct (Connect_set_Worker e z v) as [Hv Herr].
  destruct (Connect e (set_Worker z v)) as [[v1 evs1] err1].
  destruct (Connect e v) as [[v1' evs1'] err1']. simpl in *. subst.
  destruct err1' as [err|]; [done|].
  destruct (Init_set_Worker e z v1') as [Hv Hout].
  destruct (Init bs e (set_Worker z v1')) as [[v2 evs2] out2].
  destruct (Init bs e v1') as [[v2' evs2'] out2']. simpl in *. subst.
  by destruct out2'.
Qed.

Lemma csvExport_written ft data path f :
  (csvExport csv ft data path f).1 = f ++ written csv ft data.
Proof.
  unfold csvExport, written. destruct ft as [[err|k err]|]; simpl; [|done..].
  by rewrite app_nil_r.
Qed.

Lemma main_step_disk cfg0 path d0 s s' :
  Inv_count (length cfg0) s → Inv_data bs W cfg0 s → Inv_disk bs csv W cfg0 path d0 s →
  status s = None → main_step csv W s = Some s' → Inv_disk bs csv W cfg0 path d0 s'.
Proof.
  intros HC HD (Hpath & Hret & Hdisk) Hst Hstep. unfold main_step in Hstep.
  destruct (pc s) eqn:Hpc; simpl in Hdisk.
  - destruct (vcs s !! i) as [[vi|]|]; taken Hstep;
      (split; [done|split; [simpl; congruence|simpl; rewrite ?Hpc; done]]).
  - destruct (decide (i < length (vcs s))%nat).
    + destruct (decide (length (queue s) < length (vcs s))%nat); [|done].
      taken Hstep.
      split; [done|split; [simpl; congruence|done]].
    + taken Hstep.
      split; [done|split; [simpl; congruence|done]].
  - taken Hstep.
    split; [done|split; [simpl; congruence|done]].
  - destruct (decide (i < length (vcs s))%nat).
    + destruct (tokens s); [done|]. taken Hstep.
      split; [done|split; [simpl; congruence|done]].
    + taken Hstep.
      split; [done|split; [simpl; congruence|done]].
  - (* MExport *)
    destruct (vcs s !! i) as [[vi|]|] eqn:Hi.
    + pose proof (csvExport_written (append_fault W (outpath s) i) (Data vi)
                    (outpath s) (disk s)) as Hw.
      destruct (csvExport _ _ _ _ _) as [f o]. simpl in Hw. subst f.
      taken Hstep.
      split; [done|split; [simpl; congruence|]]. simpl.
      pose proof (lookup_lt_Some _ _ _ Hi) as Hlt. rewrite (ic_vcs _ _ HC) in Hlt.
      destruct (barrier _ _ HC) as (Hsig & _); [by rewrite Hpc..|].
      assert (i ∈ signalled s) as Hin by (rewrite Hsig; apply elem_of_seq; lia).
      destruct (job_not_nil cfg0 s i HC HD) as [v Hv].
      { rewrite !elem_of_app. by left. }
      destruct (id_signalled _ _ _ _ HD i v Hin Hv) as (vf & Hlife & Hvf).
      rewrite Hi in Hvf. simplify_eq.
      rewrite (take_S_r _ _ _ Hv), imap_app, concat_app, Hdisk, <- app_assoc.
      f_equal. f_equal. simpl. rewrite app_nil_r, length_take_le by lia.
      rewrite Nat.add_0_r, <- (endpoint_rows_set_Worker _ (Z.of_nat i) v).
      fold (v0 i v). unfold endpoint_rows. by rewrite Hlife.
    + taken Hstep. split; [done|split; [simpl; congruence|simpl; rewrite ?Hpc; done]].
    + taken Hstep.
      split; [done|split; [done|]]. simpl. rewrite Hdisk.
      apply lookup_ge_None in Hi. rewrite (ic_vcs _ _ HC) in Hi.
      by rewrite !take_ge by lia.
  - done.
Qed.

Lemma worker_step_disk cfg0 path d0 w s s' :
  Inv_disk bs csv W cfg0 path d0 s →
  status s = None → worker_step bs W w s = Some s' → Inv_disk bs csv W cfg0 path d0 s'.
Proof.
  intros (Hpath & Hret & Hdisk) Hst Hstep. unfold worker_step, with_object in Hstep.
  assert (Inv_disk bs csv W cfg0 path d0 (set_status (Some 2) s)) as Hpanic.
  { split; [done|split; [simpl; congruence|done]]. }
  destruct (workers s !! w) as [p|] eqn:Hp; [|done].
  destruct p as [|j|j|j|j|]; simpl in *.
  - destruct (queue s) as [|j q].
    + destruct (closed s); [|done]. taken Hstep.
      split; [done|split; [simpl; congruence|done]].
    + destruct (vcs s !! j) as [[v|]|]; [|by taken Hstep|done]. taken Hstep.
      split; [done|split; [simpl; congruence|done]].
  - destruct (vcs s !! j) as [[v|]|]; [|by taken Hstep|done].
    destruct (Connect _ _) as [[v' evs] [e|]]; taken Hstep;
      (split; [done|split; [simpl; congruence|done]]).
  - destruct (vcs s !! j) as [[v|]|]; [|by taken Hstep|done].
    destruct (Init _ _ _) as [[v' evs] [[e|]|code|]] eqn:Hinit;
      taken Hstep;
      (split; [done|split; [simpl; try congruence|done]]).
    apply Init_exit_code in Hinit as ->. done.
  - destruct (vcs s !! j) as [[v|]|]; [|by taken Hstep|done].
    destruct (Disconnect _ _) as [evs o]. taken Hstep.
    split; [done|split; [simpl; congruence|done]].
  - destruct (decide (tokens s < length (vcs s))%nat); [|done].
    taken Hstep.
    split; [done|split; [simpl; congruence|done]].
  - done.
Qed.

Lemma step_Inv cfg0 path d0 a s s' :
  Inv bs csv W cfg0 path d0 s → step bs csv W a s = Some s' → Inv bs csv W cfg0 path d0 s'.
Proof.
  intros (HC & HD & HK) Hstep. split; [by eapply step_count|].
  split; [by eapply step_data|].
  unfold step in Hstep. destruct (status s) eqn:Hst; [done|].
  destruct a; eauto using main_step_disk, worker_step_disk.
Qed.

Lemma run_Inv cfg0 path d0 sch s :
  Inv bs csv W cfg0 path d0 s → Inv bs csv W cfg0 path d0 (run bs csv W sch s).
Proof.
  revert s. induction sch as [|a sch IH]; intros s HI; simpl; [done|].
  destruct (step bs csv W a s) eqn:Hstep; eauto using step_Inv.
Qed.

Lemma boot_Inv src :
  Inv bs csv W (VCenters (load_config src).1) (Outpath (load_config src).1)
      (disk (boot csv W src)) (boot csv W src).
Proof.
  split; [apply boot_count|]. split; [apply boot_data|].
  unfold boot. destruct (load_config src) as [config evs]. simpl.
  destruct (newCsv _ _ _ _ _) as [f o]. simpl.
  split; [done|split; [done|]]. by rewrite take_0, app_nil_r.
Qed.

(** When [main] has returned, the file holds, after what [newCsv] left,
    what [csvExport] wrote of the rows of each endpoint, in the order of
    the configuration. *)
Lemma export_disk src sch :
  let config := (load_config src).1 in
  let s := run bs csv W sch (boot csv W src) in
  status s = Some 0 →
  disk s = disk (boot csv W src) ++
    concat (imap (λ j o, written csv (append_fault W (Outpath config) j)
                           (job_rows bs W j o))
                 (VCenters config)).
Proof.
  intros config s Hst.
  destruct (run_Inv _ _ _ sch _ (boot_Inv src)) as (HC & HD & Hpath & Hret & Hdisk).
  fold s in Hdisk, Hret. rewrite (Hret Hst) in Hdisk. simpl in Hdisk.
  by rewrite firstn_all in Hdisk.
Qed.

(** *** Objects and nil pointers *)

(** An object of the configuration stays an object, and a nil pointer is
    one of the configuration. *)
Lemma object_stays cfg0 path d0 s j v :
  Inv bs csv W cfg0 path d0 s → cfg0 !! j = Some (Some v) →
  ∃ v', vcs s !! j = Some (Some v').
Proof.
  intros (HC & HD & _) Hv.
  destruct (decide (j ∈ signalled s)) as [Hs|Hs].
  { destruct (id_signalled _ _ _ _ HD j v Hs Hv) as (vf & _ & Ho). eauto. }
  destruct (decide (j ∈ held (workers s))) as [Hh|Hh].
  { apply elem_of_held in Hh as (w & p & Hw & Hj).
    pose proof (id_held _ _ _ _ HD w p j v Hw Hj Hv) as Hat.
    destruct p; simpl in Hat; try (by apply elem_of_nil in Hj).
    - eauto.
    - destruct Hat as [_ Ho]. eauto.
    - destruct Hat as (_ & vf & _ & Ho). eauto.
    - destruct Hat as (vf & _ & Ho). eauto. }
  rewrite (id_rest _ _ _ _ HD j v Hv Hs Hh). eauto.
Qed.

Lemma nil_stays cfg0 path d0 s j :
  Inv bs csv W cfg0 path d0 s → vcs s !! j = Some None → cfg0 !! j = Some None.
Proof.
  intros HI Hj. destruct (cfg0 !! j) as [[v|]|] eqn:Hc; [|done|].
  - destruct (object_stays _ _ _ _ _ _ HI Hc) as [v' Hv']. congruence.
  - destruct HI as (HC & _). apply lookup_ge_None in Hc.
    apply lookup_lt_Some in Hj. rewrite (ic_vcs _ _ HC) in Hj. lia.
Qed.

(** Once [main] has started all the workers no pointer is nil. *)
Lemma all_Some {A} (l : list (option A)) :
  (∀ j, l !! j ≠ Some None) → ∃ vs, l = Some <$> vs.
Proof.
  induction l as [|o l IH]; intros Hl; [by exists []|].
  destruct IH as [vs ->]; [intros j; apply (Hl (S j))|].
  destruct o as [v|]; [by exists (v :: vs)|]. by destruct (Hl 0%nat).
Qed.

Lemma objects_after_spawn cfg0 path d0 s :
  Inv bs csv W cfg0 path d0 s → spawned (length cfg0) (pc s) = length cfg0 →
  ∃ vs, cfg0 = Some <$> vs.
Proof.
  intros (_ & HD & _) Hsp. apply all_Some. intros j Hj.
  destruct (id_nil _ _ _ _ HD j Hj) as [_ Hle]. apply lookup_lt_Some in Hj. lia.
Qed.

(** *** Jobs that end the process *)

(** The process ends with a status other than 0 only inside [Init] or
    at a nil pointer. *)
Lemma step_status a s s' :
  step bs csv W a s = Some s' →
  status s' = None ∨ status s' = Some 0 ∨
  (∃ w j vv, workers s !! w = Some (WInit j) ∧ vcs s !! j = Some (Some vv) ∧
             ∀ r, (Init bs (endpoint W j) vv).2 ≠ Return r) ∨
  (∃ j, vcs s !! j = Some None).
Proof.
  unfold step. destruct (status s) eqn:Hst; [done|]. destruct a as [|w]; intros Hstep.
  - unfold main_step in Hstep.
    destruct (pc s); repeat case_match; simplify_eq/=; eauto 6.
  - unfold worker_step, with_object in Hstep.
    destruct (workers s !! w) as [p|] eqn:Hp; [|done].
    destruct p as [|j|j|j|j|]; simpl in *.
    + destruct (queue s) as [|j q]; [destruct (closed s)|];
        [..|destruct (vcs s !! j) as [[v|]|] eqn:Hvj]; simplify_eq/=; eauto 6.
    + destruct (vcs s !! j) as [[v|]|] eqn:Hvj; simplify_eq/=; eauto 6.
      destruct (Connect _ _) as [[v' evs] [e|]]; simplify_eq/=; auto.
    + destruct (vcs s !! j) as [[vv|]|] eqn:Hvj; simplify_eq/=; eauto 6.
      destruct (Init _ _ _) as [[v' evs] out] eqn:Hinit.
      destruct out as [[e|]|code|]; simplify_eq/=; auto;
        right; right; left; exists w, j, vv; rewrite Hinit; done.
    + destruct (vcs s !! j) as [[v|]|] eqn:Hvj; simplify_eq/=; eauto 6.
      destruct (Disconnect _ _); simplify_eq/=; auto.
    + case_decide; simplify_eq/=; auto.
    + done.
Qed.

Lemma step_alive cfg0 path d0 a s s' :
  all_return bs W cfg0 → Inv bs csv W cfg0 path d0 s →
  step bs csv W a s = Some s' → status s' = None ∨ status s' = Some 0.
Proof.
  intros Hall HI Hstep. pose proof HI as (HC & HD & HK).
  destruct (step_status _ _ _ Hstep)
    as [|[|[(w & j & vv & Hw & Hvj & Hinit)|[j Hj]]]]; auto; exfalso.
  - destruct (job_not_nil cfg0 s j HC HD) as [v Hv].
    { rewrite !elem_of_app. right. left.
      apply elem_of_held. exists w, (WInit j). split; [done|left]. }
    destruct (id_held _ _ _ _ HD w (WInit j) j v Hw ltac:(left) Hv) as [Hok Hat].
    rewrite Hvj in Hat. simplify_eq.
    destruct (Hall j _ Hv) as (v' & vf & Hv' & Hlife). simplify_eq.
    destruct (Connect (endpoint W j) (v0 j v')) as [[v1 evs1] err] eqn:Hconn.
    simpl in *. subst err. rewrite (lifecycle_init _ _ _ _ Hconn) in Hlife.
    destruct (Init bs (endpoint W j) v1) as [[v2 evs2] [r|code|]]; simpl in *; try done.
    by eapply Hinit.
  - apply (nil_stays _ _ _ _ _ HI) in Hj.
    destruct (Hall j _ Hj) as (v' & vf & Hv' & _). done.
Qed.

Lemma run_alive cfg0 path d0 sch s :
  all_return bs W cfg0 → Inv bs csv W cfg0 path d0 s →
  status s = None ∨ status s = Some 0 →
  status (run bs csv W sch s) = None ∨ status (run bs csv W sch s) = Some 0.
Proof.
  intros Hall. revert s. induction sch as [|a sch IH]; intros s HI Hst; simpl; [done|].
  destruct (step bs csv W a s) as [s'|] eqn:Hstep; [|eauto].
  apply IH; [by eapply step_Inv|by eapply step_alive].
Qed.

(** When no pointer is nil and no job ends the process, some schedule
    lets [main] return, and no schedule ends the process otherwise. *)
Lemma finishes src :
  all_return bs W (VCenters (load_config src).1) →
  (∃ sch, status (run bs csv W sch (boot csv W src)) = Some 0) ∧
  (∀ sch c, status (run bs csv W sch (boot csv W src)) = Some c → c = 0).
Proof.
  intros Hall. pose proof (boot_Inv src) as HI.
  assert (status (boot csv W src) = None) as Hb.
  { unfold boot. destruct (load_config src), (newCsv _ _ _ _ _). done. }
  split.
  - destruct (terminates _ (boot csv W src) (boot_count src)) as [sch Hsch].
    exists sch. destruct (run_alive _ _ _ sch _ Hall HI); [by left|done..].
  - intros sch c Hc. destruct (run_alive _ _ _ sch _ Hall HI) as [H|H];
      [by left|congruence..].
Qed.

(** A job that ends the process is never signalled, so [main] never gets
    past the loop that waits: nothing is exported. *)
Lemma fatal_job src sch j v :
  let config := (load_config src).1 in
  let s := run bs csv W sch (boot csv W src) in
  VCenters config !! j = Some (Some v) →
  (∀ vf, lifecycle bs (endpoint W j) (v0 j v) ≠ Return vf) →
  (j ∉ signalled s) ∧ status s ≠ Some 0 ∧ disk s = disk (boot csv W src).
Proof.
  intros config s Hv Hlife.
  destruct (run_Inv _ _ _ sch _ (boot_Inv src)) as (HC & HD & Hpath & Hret & Hdisk).
  fold s config in HC, HD, Hret, Hdisk.
  assert (j ∉ signalled s) as Hns.
  { intros Hin. destruct (id_signalled _ _ _ _ HD j v Hin Hv) as (vf & Hl & _).
    by eapply Hlife. }
  assert (exported (length (VCenters config)) (pc s) = 0%nat) as Hex.
  { destruct (pc s) eqn:Hpc; simpl; try done.
    - destruct (barrier _ _ HC) as (Hsig & _); [by rewrite Hpc..|].
      exfalso. apply Hns. rewrite Hsig. apply elem_of_seq.
      apply lookup_lt_Some in Hv. lia.
    - destruct (barrier _ _ HC) as (Hsig & _); [by rewrite Hpc..|].
      exfalso. apply Hns. rewrite Hsig. apply elem_of_seq.
      apply lookup_lt_Some in Hv. lia. }
  split; [done|]. split.
  - intros Hst. rewrite (Hret Hst) in Hex. simpl in Hex.
    apply lookup_lt_Some in Hv. fold config in Hv. lia.
  - rewrite Hdisk, Hex, take_0. simpl. by rewrite app_nil_r.
Qed.

(** *** What a step adds to the output *)

Lemma step_frame a s s' i :
  step bs csv W a s = Some s' →
  (∃ evs, events s' = events s ++ evs) ∧
  (i ∈ signalled s' → i ∈ signalled s ∨ ∃ w, workers s !! w = Some (WDone i)) ∧
  (∀ w, workers s' !! w = Some (WDone i) →
     workers s !! w = Some (WDone i) ∨ workers s !! w = Some (WDisconnect i) ∨
     (workers s !! w = Some (WConnect i) ∧
      ∃ vv e, vcs s !! i = Some (Some vv) ∧ (Connect (endpoint W i) vv).2 = Some e ∧
              connect_failure_line w (Connect (endpoint W i) vv).1.1 e ∈ events s')).
Proof.
  unfold step. destruct (status s) eqn:Hst; [done|]. destruct a as [|w0]; intros Hstep.
  - assert (workers s' = workers s ∨ workers s' = workers s ++ [WRange]) as Hws.
    { unfold main_step in Hstep.
      destruct (pc s); repeat case_match; simplify_eq/=; auto. }
    assert (signalled s' = signalled s ∧ ∃ evs, events s' = events s ++ evs) as [Hsig Hev].
    { unfold main_step in Hstep.
      destruct (pc s); repeat case_match; simplify_eq/=; split; try done;
        try (by eexists); by (exists []; rewrite app_nil_r). }
    rewrite Hsig. split; [done|]. split; [auto|].
    intros w Hw. left. destruct Hws as [Hws|Hws]; rewrite Hws in Hw; [done|].
    apply lookup_app_Some in Hw as [Hw|[_ Hw]]; [done|].
    apply list_lookup_singleton_Some in Hw as [_ ?]. done.
  - unfold worker_step, with_object in Hstep.
    destruct (workers s !! w0) as [p|] eqn:Hp; [|done].
    assert (∀ q w, q ≠ WDone i → <[w0:=q]> (workers s) !! w = Some (WDone i) →
              workers s !! w = Some (WDone i)) as Hother.
    { intros q w Hq Hw.
      apply list_lookup_insert_Some in Hw as [(_ & ? & _)|(_ & Hw)]; done. }
    assert (s' = set_status (Some 2) s →
      (∃ evs, events s' = events s ++ evs) ∧
      (i ∈ signalled s' → i ∈ signalled s ∨ ∃ w, workers s !! w = Some (WDone i)) ∧
      (∀ w, workers s' !! w = Some (WDone i) →
         workers s !! w = Some (WDone i) ∨ workers s !! w = Some (WDisconnect i) ∨
         (workers s !! w = Some (WConnect i) ∧
          ∃ vv e, vcs s !! i = Some (Some vv) ∧ (Connect (endpoint W i) vv).2 = Some e ∧
                  connect_failure_line w (Connect (endpoint W i) vv).1.1 e ∈ events s')))
      as Hpanic.
    { intros ->. simpl. split; [by exists []; rewrite app_nil_r|]. auto. }
    destruct p as [|j|j|j|j|]; simpl in *.
    + destruct (queue s) as [|j q].
      * destruct (closed s); [|done]. simplify_eq/=.
        split; [by exists []; rewrite app_nil_r|]. split; [auto|].
        intros w Hw. left. (eapply Hother; [|exact Hw]; done).
      * destruct (vcs s !! j) as [[v|]|];
          [|apply Hpanic; by simplify_eq|done]. simplify_eq/=.
        split; [by eexists|]. split; [auto|].
        intros w Hw. left. (eapply Hother; [|exact Hw]; done).
    + destruct (vcs s !! j) as [[vv|]|] eqn:Hvj;
        [|apply Hpanic; by simplify_eq|done].
      destruct (Connect _ _) as [[v' evs] [e|]] eqn:Hconn; simplify_eq/=.
      * split; [rewrite <- app_assoc; by eexists|]. split; [auto|].
        intros w Hw.
        apply list_lookup_insert_Some in Hw as [(<- & Hq & _)|(_ & Hw)]; [|auto].
        simplify_eq. right. right. split; [done|].
        exists vv, e. rewrite Hconn. simpl. split; [done|]. split; [done|].
        unfold connect_failure_line. rewrite !elem_of_app. right.
        apply list_elem_of_singleton. done.
      * split; [by eexists|]. split; [auto|].
        intros w Hw. left. (eapply Hother; [|exact Hw]; done).
    + destruct (vcs s !! j) as [[vv|]|];
        [|apply Hpanic; by simplify_eq|done].
      destruct (Init _ _ _) as [[v' evs] [[e|]|code|]]; simplify_eq/=.
      all: split; [rewrite <- ?app_assoc; by eexists|]; split; [auto|].
      all: intros w Hw; left; try done; (eapply Hother; [|exact Hw]; done).
    + destruct (vcs s !! j) as [[vv|]|];
        [|apply Hpanic; by simplify_eq|done].
      destruct (Disconnect _ _) as [evs o]; simplify_eq/=.
      split; [by eexists|]. split; [auto|].
      intros w Hw.
      apply list_lookup_insert_Some in Hw as [(<- & Hq & _)|(_ & Hw)]; [|auto].
      simplify_eq. auto.
    + case_decide; simplify_eq/=.
      split; [by exists []; rewrite app_nil_r|]. split.
      * intros Hin. apply elem_of_app in Hin as [|Hin]; [auto|].
        apply list_elem_of_singleton in Hin. subst. eauto.
      * intros w Hw. left. (eapply Hother; [|exact Hw]; done).
    + done.
Qed.

(** A connection failure of endpoint [i] is on the output, with the
    [Hostname], from the moment its worker has seen it. *)
Lemma run_logged cfg0 path d0 sch s i v err :
  Inv bs csv W cfg0 path d0 s →
  cfg0 !! i = Some (Some v) → (Connect (endpoint W i) v).2 = Some err →
  (i ∈ signalled s ∨ (∃ w, workers s !! w = Some (WDone i)) →
   ∃ w, connect_failure_line w v err ∈ events s) →
  i ∈ signalled (run bs csv W sch s) ∨ (∃ w, workers (run bs csv W sch s) !! w = Some (WDone i)) →
  ∃ w, connect_failure_line w v err ∈ events (run bs csv W sch s).
Proof.
  intros HI Hv Herr. revert s HI.
  induction sch as [|a sch IH]; intros s HI Hlog; simpl; [done|].
  destruct (step bs csv W a s) as [s'|] eqn:Hstep; [|eauto].
  apply IH; [by eapply step_Inv|]. clear IH.
  destruct (step_frame _ _ _ i Hstep) as ((evs & Hev) & Hsig & Hdone).
  destruct HI as (HC & HD & HK).
  assert (i ∈ signalled s ∨ (∃ w, workers s !! w = Some (WDone i)) →
          ∃ w, connect_failure_line w v err ∈ events s') as Hold.
  { intros H. destruct (Hlog H) as [w Hw]. exists w. rewrite Hev, elem_of_app. auto. }
  intros [Hin|[w Hw]]; [by apply Hold, Hsig|].
  destruct (Hdone w Hw) as [|[Hdis|(Hcon & vv & e & Hvv & He & Hline)]]; [eauto|..].
  - exfalso.
    destruct (id_held _ _ _ _ HD w _ i v Hdis ltac:(left) Hv) as (Hok & _).
    destruct (Connect_set_Worker (endpoint W i) (Z.of_nat i) v) as [_ Heq].
    unfold v0 in Hok. congruence.
  - pose proof (id_held _ _ _ _ HD w _ i v Hcon ltac:(left) Hv) as Hat. simpl in Hat.
    rewrite Hvv in Hat. simplify_eq.
    destruct (Connect_set_Worker (endpoint W i) (Z.of_nat i) v) as [Hv1 Heq].
    unfold v0 in *. rewrite Heq, Herr in He. simplify_eq.
    exists w. unfold connect_failure_line in *. rewrite Hv1 in Hline.
    replace (Hostname v) with (Hostname (set_Worker (Z.of_nat i) (Connect (endpoint W i) v).1.1)); [done|].
    simpl. unfold Connect.
    destruct (url_Parse (endpoint W i)), (NewClient (endpoint W i)); done.
Qed.

(** When [main] exports or has returned, no pointer is nil and every
    [VCenter] is as its job left it. *)
Lemma exported_Data cfg0 path d0 s :
  Inv bs csv W cfg0 path d0 s → received (length cfg0) (pc s) = length cfg0 →
  after_close (pc s) = true →
  ∃ vs, vcs s = Some <$> vs ∧ Data <$> vs = imap (job_rows bs W) cfg0.
Proof.
  intros HI Hrec Hac. pose proof HI as (HC & HD & _).
  destruct (barrier _ _ HC Hrec Hac) as (Hsig & _).
  assert (∀ j, (j < length cfg0)%nat →
            ∃ v vf, cfg0 !! j = Some (Some v) ∧ vcs s !! j = Some (Some vf) ∧
                    Data vf = endpoint_rows bs (endpoint W j) v) as Hall.
  { intros j Hj.
    assert (j ∈ signalled s) as Hin by (rewrite Hsig; apply elem_of_seq; lia).
    destruct (job_not_nil cfg0 s j HC HD) as [v Hv].
    { rewrite !elem_of_app. by left. }
    destruct (id_signalled _ _ _ _ HD j v Hin Hv) as (vf & Hlife & Hvf).
    exists v, vf. split; [done|]. split; [done|].
    rewrite <- (endpoint_rows_set_Worker _ (Z.of_nat j) v). fold (v0 j v).
    unfold endpoint_rows. by rewrite Hlife. }
  destruct (all_Some (vcs s)) as [vs Hvs].
  { intros j Hj. pose proof (lookup_lt_Some _ _ _ Hj) as Hlt.
    rewrite (ic_vcs _ _ HC) in Hlt.
    destruct (Hall j Hlt) as (v & vf & _ & Hvf & _). congruence. }
  exists vs. split; [done|].
  apply list_eq. intros j. rewrite list_lookup_fmap, list_lookup_imap.
  destruct (decide (j < length cfg0)%nat) as [Hj|Hj].
  - destruct (Hall j Hj) as (v & vf & Hv & Hvf & Hd).
    rewrite Hvs, list_lookup_fmap in Hvf.
    destruct (vs !! j) as [vj|]; simplify_eq/=. rewrite Hv. simpl. by rewrite Hd.
  - rewrite (proj2 (lookup_ge_None cfg0 j)) by lia. simpl.
    assert (length vs = length cfg0) as Hlen.
    { rewrite <- (ic_vcs _ _ HC), Hvs. by rewrite length_fmap. }
    by rewrite (proj2 (lookup_ge_None vs j)) by lia.
Qed.

End Proofs.

(** ** The record model *)

Lemma wrap_small w x : 0 < w → in_int w x → wrap w x = x.
Proof.
  intros Hw [Hlo Hhi]. unfold wrap.
  assert (2 ^ w = 2 * 2 ^ (w - 1)) as Hp.
  { rewrite <- Z.pow_succ_r by lia. f_equal. lia. }
  rewrite Z.mod_small by lia. lia.
Qed.

Lemma int64_small x : in_int 64 x → int64 x = x.
Proof. apply wrap_small. lia. Qed.

Lemma in_int_64 w x : 0 < w <= 64 → in_int w x → in_int 64 x.
Proof.
  intros Hw [Hlo Hhi]. unfold in_int in *.
  assert (2 ^ (w - 1) <= 2 ^ (64 - 1)) by (apply Z.pow_le_mono_r; lia).
  lia.
Qed.

(** C6: for the record [Init] builds for a host, the free CPU is the
    total CPU minus the overall CPU usage of the host, exactly, in MHz;
    the total is the clock rate times the number of cores, both of the
    hardware summary [hw] of the host. No operation wraps around for
    values of the hosts' types, and the row shows the two numbers as they
    are. *)
Theorem free_cpu_exact (bs : Z → string) (cluster : string) (hs : mo.HostSystem)
    (r : hostStat) :
  host_in_range hs →
  host_stats cluster hs = Some r →
  ∃ hw, types.Hardware (mo.Summary hs) = Some hw ∧
  let qs := types.QuickStats (mo.Summary hs) in
  TotalCPU r = types.CpuMhz hw * types.NumCpuCores hw ∧
  FreeCPU r = TotalCPU r - types.OverallCpuUsage qs ∧
  Slice bs r !! 10%nat = Some (FormatInt (TotalCPU r)) ∧
  Slice bs r !! 11%nat = Some (FormatInt (TotalCPU r - types.OverallCpuUsage qs)).
Proof.
  intros [Hhw (Hcpu & _)] Hr.
  destruct (types.Hardware (mo.Summary hs)) as [hw|] eqn:Hsome;
    [|by unfold host_stats in Hr; rewrite Hsome in Hr].
  exists hw. split; [done|].
  destruct (Hhw hw eq_refl) as (Hmhz & _ & Hcores & _).
  unfold host_stats in Hr. rewrite Hsome in Hr. simpl in Hr.
  destruct (mo.Config hs) as [config|]; [|done].
  destruct (mo.Hardware hs) as [hardware|]; [|done]. simpl in Hr.
  injection Hr as <-. simpl.
  unfold mul64, sub64.
  rewrite !(int64_small (types.CpuMhz _)) by (eapply (in_int_64 32); [lia|done]).
  rewrite !(int64_small (types.NumCpuCores _)) by (eapply (in_int_64 16); [lia|done]).
  rewrite !(int64_small (types.OverallCpuUsage _)) by (eapply (in_int_64 32); [lia|done]).
  unfold in_int in *. simpl in *.
  set (m := types.CpuMhz _) in *. set (c := types.NumCpuCores _) in *.
  set (u := types.OverallCpuUsage _) in *.
  assert (- 2 ^ 46 <= m * c <= 2 ^ 46) as Hprod by nia.
  assert (wrap 64 (m * c) = m * c) as Hmc by (apply wrap_small; unfold in_int; lia).
  assert (wrap 64 (m * c - u) = m * c - u) as Hfree
    by (apply wrap_small; unfold in_int; lia).
  unfold int64. rewrite ?Hmc, ?Hfree, ?Hmc, ?Hfree. done.
Qed.

Lemma sample_host_in_range name parent : host_in_range (sample_host name parent).
Proof.
  split.
  - intros hw Hhw. simpl in Hhw. injection Hhw as <-.
    unfold hardware_in_range, in_int. simpl. lia.
  - unfold stats_in_range, in_int. simpl. lia.
Qed.

Lemma free_cpu_exact_witness :
  ∃ r, host_stats "c1" (sample_host "esx1" "domain-c7") = Some r ∧
       TotalCPU r = 2000 * 10 ∧
       FreeCPU r = TotalCPU r - 5000 ∧
       Slice plain_bytes r !! 10%nat = Some (FormatInt (TotalCPU r)) ∧
       Slice plain_bytes r !! 11%nat = Some (FormatInt (TotalCPU r - 5000)).
Proof.
  eexists. split; [reflexivity|].
  destruct (free_cpu_exact plain_bytes "c1" (sample_host "esx1" "domain-c7") _
              (sample_host_in_range _ _) eq_refl) as (hw & Hhw & H).
  injection Hhw as <-. exact H.
Defined.

(** The free memory of the record is the total memory of the host minus
    its used memory, the usage converted from MB to bytes before the
    subtraction. The record keeps the total, in bytes, in
    [OverallMemoryUsage] and the usage, in MB, in [MemorySize]; [Slice]
    shows the three values in bytes, the usage first. *)
Theorem free_memory_fields (bs : Z → string) (cluster : string) (hs : mo.HostSystem)
    (hw : types.HostHardwareSummary) (r : hostStat) :
  host_in_range hs →
  types.Hardware (mo.Summary hs) = Some hw →
  host_stats cluster hs = Some r →
  0 <= types.MemorySize hw →
  0 <= types.OverallMemoryUsage (types.QuickStats (mo.Summary hs)) →
  let total := types.MemorySize hw in
  let used_mb := types.OverallMemoryUsage (types.QuickStats (mo.Summary hs)) in
  FreeMemory r = total - used_mb * 1024 * 1024 ∧
  OverallMemoryUsage r = total ∧
  MemorySize r = used_mb ∧
  Slice bs r !! 12%nat = Some (bs (used_mb * 1024 * 1024)) ∧
  Slice bs r !! 13%nat = Some (bs total) ∧
  Slice bs r !! 14%nat = Some (bs (total - used_mb * 1024 * 1024)).
Proof.
  intros [Hhw (_ & Huse)] Hsome Hr Hm0 Hu0.
  destruct (Hhw hw Hsome) as (_ & _ & _ & _ & Hmem).
  unfold host_stats in Hr. rewrite Hsome in Hr. simpl in Hr.
  destruct (mo.Config hs) as [config|]; [|done].
  destruct (mo.Hardware hs) as [hardware|]; [|done]. simpl in Hr.
  injection Hr as <-. simpl.
  set (t := types.MemorySize _) in *. set (u := types.OverallMemoryUsage _) in *.
  unfold in_int in *. simpl in *.
  assert (int64 u = u) as Hu by (apply int64_small; unfold in_int; lia).
  assert (int64 t = t) as Ht by (apply int64_small; unfold in_int; lia).
  assert (mul64 (mul64 u 1024) 1024 = u * 1024 * 1024) as Hmul.
  { unfold mul64. rewrite (wrap_small 64 (u * 1024)) by (unfold in_int; lia).
    apply wrap_small; unfold in_int; lia. }
  assert (sub64 t (u * 1024 * 1024) = t - u * 1024 * 1024) as Hsub.
  { apply wrap_small; unfold in_int; lia. }
  rewrite !Hu, !Ht, !Hmul, !Hsub.
  assert (int64 (t - u * 1024 * 1024) = t - u * 1024 * 1024) as ->
    by (apply int64_small; unfold in_int; lia).
  done.
Qed.

Lemma free_memory_fields_witness :
  ∃ r, host_stats "c1" (sample_host "esx1" "domain-c7") = Some r ∧
       FreeMemory r = 8589934592 - 2048 * 1024 * 1024 ∧
       OverallMemoryUsage r = 8589934592 ∧
       MemorySize r = 2048 ∧
       Slice plain_bytes r !! 12%nat = Some (plain_bytes (2048 * 1024 * 1024)) ∧
       Slice plain_bytes r !! 13%nat = Some (plain_bytes 8589934592) ∧
       Slice plain_bytes r !! 14%nat =
         Some (plain_bytes (8589934592 - 2048 * 1024 * 1024)).
Proof.
  eexists. split; [reflexivity|].
  apply (free_memory_fields plain_bytes "c1" (sample_host "esx1" "domain-c7")
           sample_hardware).
  - apply sample_host_in_range.
  - reflexivity.
  - reflexivity.
  - simpl. lia.
  - simpl. lia.
Defined.

(** C1: the two memory fields of the record are filled crosswise. For a
    host with 8 GiB of memory of which 2048 MB are used, the field
    [MemorySize] holds the 2048 MB of usage and the field
    [OverallMemoryUsage] the 8 GiB of total memory; the free memory is
    their difference in bytes all the same. *)
Lemma memory_fields_swapped :
  let hs := sample_host "esx1" "domain-c7" in
  ∃ hw r,
    types.Hardware (mo.Summary hs) = Some hw ∧
    host_stats "c1" hs = Some r ∧
    types.MemorySize hw = 8589934592 ∧
    types.OverallMemoryUsage (types.QuickStats (mo.Summary hs)) = 2048 ∧
    MemorySize r = 2048 ∧
    OverallMemoryUsage r = 8589934592 ∧
    FreeMemory r = 8589934592 - 2048 * 1024 * 1024 ∧
    ¬ memory_fields_as_stated hs hw r.
Proof.
  do 2 eexists. do 7 (split; [reflexivity|]).
  intros (_ & H & _). simpl in H. discriminate.
Qed.

(** [Headers] and [Slice] have 15 entries each; [Headers] names the
    fields in the order of the declaration, and [Slice] shows them in the
    same order except that it shows [MemorySize] at position 12 and
    [OverallMemoryUsage] at position 13. *)
Theorem schema_order (bs : Z → string) (r : hostStat) :
  length (Headers r) = 15%nat ∧ length (Slice bs r) = 15%nat ∧
  Headers r = map field_name struct_fields ∧
  Slice bs r = map (λ f, render bs f r) slice_fields ∧
  slice_fields = <[12%nat := FMemorySize]> (<[13%nat := FOverallMemoryUsage]> struct_fields).
Proof. repeat split. Qed.

(** C9: positions 12 and 13 of the row do not show the fields their
    headers name. For the record of a host with 8 GiB of memory of which
    2048 MB are used, position 12 has the header [OverallMemoryUsage] and
    shows the field [MemorySize], times 1024 * 1024; position 13 has the
    header [MemorySize] and shows the field [OverallMemoryUsage]. *)
Lemma schema_not_consistent (bs : Z → string) :
  ∃ r, host_stats "c1" (sample_host "esx1" "domain-c7") = Some r ∧
  length (Headers r) = length (Slice bs r) ∧
  Headers r !! 12%nat = Some "OverallMemoryUsage" ∧
  Slice bs r !! 12%nat = Some (render bs FMemorySize r) ∧
  render bs FMemorySize r = bs (2048 * 1024 * 1024) ∧
  Headers r !! 13%nat = Some "MemorySize" ∧
  Slice bs r !! 13%nat = Some (render bs FOverallMemoryUsage r) ∧
  render bs FOverallMemoryUsage r = bs 8589934592 ∧
  (bs (2048 * 1024 * 1024) ≠ bs 8589934592 → ¬ schema_consistent bs r).
Proof.
  eexists. split; [reflexivity|].
  repeat split. intros Hne [_ H].
  destruct (H 12%nat FOverallMemoryUsage eq_refl) as [_ Hs].
  apply Hne. simpl in Hs. by simplify_eq.
Qed.

(** C10: [Disconnect] on a [VCenter] without a session makes no logout
    call, prints nothing and returns nil, whatever the endpoint would
    answer. *)
Theorem Disconnect_without_session (e : Endpoint) (v : VCenter) :
  client v = None → Disconnect e v = ([], None).
Proof. intros H. unfold Disconnect. by rewrite H. Qed.

Lemma Disconnect_without_session_witness :
  Disconnect endpoint_refusing
    (Connect endpoint_refusing (sample_vcenter "b")).1.1 = ([], None).
Proof. apply Disconnect_without_session. reflexivity. Defined.

(** ** The run as a whole *)

Lemma csv_bytes_app csv rows rows' :
  csv_bytes csv (rows ++ rows') = csv_bytes csv rows ++ csv_bytes csv rows'.
Proof. apply bind_app. Qed.

Lemma csv_bytes_concat_imap {A} csv (f : nat → A → list (list string)) (l : list A) :
  csv_bytes csv (concat (imap f l)) = concat (imap (λ j x, csv_bytes csv (f j x)) l).
Proof.
  revert f. induction l as [|x l IH]; intros f; simpl; [done|].
  by rewrite csv_bytes_app, IH.
Qed.

(** C2: under every schedule the file holds, after what [newCsv] left,
    the rows of the endpoints exported so far, endpoint after endpoint in
    the order of the configuration, and nothing is exported before the
    loop that waits is done. When [main] has returned, the file holds the
    [Data] of every [VCenter], in the order of the configuration and each
    batch in the order it was collected; that [Data] is what the endpoint
    itself determines, whatever the schedule was. *)
Theorem merge_order (bs : Z → string) (csv : list string → list Byte.byte)
    (W : World) (src : config_file) (sch : list action) :
  let config := (load_config src).1 in
  let s := run bs csv W sch (boot csv W src) in
  let rows := job_rows bs W in
  (∀ k, append_fault W (Outpath config) k = None) →
  disk s = disk (boot csv W src) ++
           csv_bytes csv
             (concat (imap rows (take (exported (length (VCenters config)) (pc s))
                                      (VCenters config)))) ∧
  (status s = Some 0 →
   ∃ vs, vcs s = Some <$> vs ∧
         disk s = disk (boot csv W src) ++ csv_bytes csv (concat (Data <$> vs)) ∧
         Data <$> vs = imap rows (VCenters config)).
Proof.
  intros config s rows Hok.
  assert (∀ l, imap (λ j o, written csv (append_fault W (Outpath config) j)
                              (job_rows bs W j o)) l
               = imap (λ j o, csv_bytes csv (rows j o)) l) as Himap.
  { intros l. apply imap_ext. intros j o _. by rewrite Hok. }
  pose proof (run_Inv bs csv W _ _ _ sch _ (boot_Inv bs csv W src)) as HI.
  pose proof HI as (HC & HD & Hpath & Hret & Hdisk).
  fold s config in Hdisk, Hret. rewrite Himap, <- csv_bytes_concat_imap in Hdisk.
  split; [done|].
  intros Hst.
  destruct (exported_Data bs csv W _ _ _ _ HI) as (vs & Hvs & Hdata);
    [fold s; by rewrite (Hret Hst)..|].
  exists vs. split; [done|]. split; [|done].
  rewrite Hdata, Hdisk, (Hret Hst). simpl. by rewrite firstn_all.
Qed.

Lemma merge_order_witness :
  let s := run plain_bytes plain_csv world_ok b_last
               (boot plain_csv world_ok (Decoded config_abc)) in
  signalled s = [0; 2; 1]%nat ∧
  ∃ vs, vcs s = Some <$> vs ∧
        disk s = disk (boot plain_csv world_ok (Decoded config_abc)) ++
                 csv_bytes plain_csv (concat (Data <$> vs)) ∧
        Data <$> vs = imap (job_rows plain_bytes world_ok) (VCenters config_abc).
Proof.
  split; [vm_compute; reflexivity|].
  apply (merge_order plain_bytes plain_csv world_ok (Decoded config_abc) b_last).
  - intros k. reflexivity.
  - vm_compute. reflexivity.
Defined.

Lemma Connect_err_unchanged e v err :
  (Connect e v).2 = Some err → (Connect e v).1.1 = v.
Proof. unfold Connect. destruct (url_Parse e), (NewClient e); done. Qed.

Lemma concat_imap_delete {A B} (f : nat → A → list B) (l : list A) i x :
  l !! i = Some x → f i x = [] →
  concat (imap f l) = concat (imap (λ k, f (skip i k)) (delete i l)).
Proof.
  revert f i. induction l as [|a l IH]; intros f [|i] Hl Hf; simplify_eq/=.
  - rewrite Hf. simpl. f_equal.
  - f_equal. rewrite (IH (f ∘ S) i Hl Hf). f_equal. apply imap_ext.
    intros k y _. unfold skip. simpl. repeat case_decide; try done; lia.
Qed.

(** C5, as amended: when [Connect] fails for the endpoint at position
    [i], then under every schedule no worker ever stands at [Init] or
    [Disconnect] with that job; the failure is on the output with the
    [Hostname] from the moment the worker has seen it; the endpoint
    contributes the rows its definition carried, and no other; and the
    file holds, after what [newCsv] left, the rows of the endpoints
    exported so far, each as its own endpoint and definition determine
    them. When [main] has returned these are the rows of all the
    endpoints; when the definition carried no row, they are the rows of
    the other endpoints. *)
Theorem connection_failure_isolated (bs : Z → string)
    (csv : list string → list Byte.byte) (W : World)
    (src : config_file) (sch : list action) (i : nat) (v : VCenter) (err : error) :
  let config := (load_config src).1 in
  let s := run bs csv W sch (boot csv W src) in
  VCenters config !! i = Some (Some v) →
  (Connect (endpoint W i) v).2 = Some err →
  (∀ w, workers s !! w ≠ Some (WInit i) ∧ workers s !! w ≠ Some (WDisconnect i)) ∧
  (i ∈ signalled s ∨ (∃ w, workers s !! w = Some (WDone i)) →
   ∃ w, connect_failure_line w v err ∈ events s) ∧
  job_rows bs W i (Some v) = Data v ∧
  ((∀ k, append_fault W (Outpath config) k = None) →
   disk s = disk (boot csv W src) ++
            csv_bytes csv
              (concat (imap (job_rows bs W)
                            (take (exported (length (VCenters config)) (pc s))
                                  (VCenters config)))) ∧
   (status s = Some 0 →
    i ∈ signalled s ∧
    disk s = disk (boot csv W src) ++
             csv_bytes csv (concat (imap (job_rows bs W) (VCenters config))) ∧
    (Data v = [] →
     disk s = disk (boot csv W src) ++
              csv_bytes csv (concat (imap (λ k o, job_rows bs W (skip i k) o)
                                          (delete i (VCenters config))))))).
Proof.
  intros config s Hv Herr.
  pose proof (run_Inv bs csv W _ _ _ sch _ (boot_Inv bs csv W src)) as HI.
  destruct HI as (HC & HD & Hpath & Hret & Hdisk). fold s config in HC, HD, Hret, Hdisk.
  assert ((Connect (endpoint W i) (v0 i v)).2 = Some err) as Herr0.
  { unfold v0. destruct (Connect_set_Worker (endpoint W i) (Z.of_nat i) v) as [_ ->].
    done. }
  assert (job_rows bs W i (Some v) = Data v) as Hrows.
  { simpl. unfold endpoint_rows, lifecycle.
    pose proof (Connect_err_unchanged _ _ _ Herr) as Hsame.
    destruct (Connect (endpoint W i) v) as [[v1 evs1] err1]. simpl in *.
    by subst. }
  split; [|split; [|split; [done|]]].
  - intros w. split; intros Hw.
    + destruct (id_held _ _ _ _ HD w _ i v Hw ltac:(left) Hv) as [Hok _]. congruence.
    + destruct (id_held _ _ _ _ HD w _ i v Hw ltac:(left) Hv) as [Hok _]. congruence.
  - apply (run_logged bs csv W _ _ _ sch (boot csv W src) i v err
             (boot_Inv bs csv W src) Hv Herr).
    unfold boot. destruct (load_config src), (newCsv _ _ _ _ _). simpl.
    intros [Hx|[w Hx]]; [by apply elem_of_nil in Hx|done].
  - intros Hok.
    assert (∀ l, imap (λ j o, written csv (append_fault W (Outpath config) j)
                                (job_rows bs W j o)) l
                 = imap (λ j o, csv_bytes csv (job_rows bs W j o)) l) as Himap.
    { intros l. apply imap_ext. intros j o _. by rewrite Hok. }
    rewrite Himap, <- csv_bytes_concat_imap in Hdisk. split; [done|].
    intros Hst. split.
    { destruct (barrier _ _ HC) as (Hsig & _); [by rewrite (Hret Hst)..|].
      rewrite Hsig. apply elem_of_seq. apply lookup_lt_Some in Hv. fold config in Hv. lia. }
    assert (disk s = disk (boot csv W src) ++
              csv_bytes csv (concat (imap (job_rows bs W) (VCenters config)))) as Hd.
    { rewrite Hdisk, (Hret Hst). simpl. by rewrite firstn_all. }
    split; [done|]. intros Hdata. rewrite Hd. do 2 f_equal.
    apply (concat_imap_delete _ _ i (Some v) Hv). by rewrite Hrows.
Qed.

Lemma connection_failure_isolated_witness :
  let s := run plain_bytes plain_csv world_refusing (round_robin 20)
               (boot plain_csv world_refusing (Decoded config_abc)) in
  status s = Some 0 ∧
  (∃ w, connect_failure_line w (sample_vcenter "b") "dial tcp: no route to host"
          ∈ events s) ∧
  job_rows plain_bytes world_refusing 1 (Some (sample_vcenter "b")) = [] ∧
  disk s = disk (boot plain_csv world_refusing (Decoded config_abc)) ++
           csv_bytes plain_csv
             (concat (imap (λ k o, job_rows plain_bytes world_refusing (skip 1 k) o)
                           (delete 1%nat (VCenters config_abc)))).
Proof.
  intros s.
  destruct (connection_failure_isolated plain_bytes plain_csv world_refusing
              (Decoded config_abc) (round_robin 20) 1 (sample_vcenter "b")
              "dial tcp: no route to host" eq_refl eq_refl)
    as (_ & Hlog & Hrows & Hfile).
  assert (status s = Some 0) as Hst by (vm_compute; reflexivity).
  destruct (Hfile (λ _, eq_refl)) as [_ Hend].
  destruct (Hend Hst) as (Hin & _ & Hd).
  split; [done|]. split; [by apply Hlog; left|]. split; [done|]. by apply Hd.
Defined.

(** C5, as the specification words it, fails: the endpoint [b] refuses
    the connection, and the row that the configuration file gave for it
    is in the file, between the rows of [a] and of [c]. The endpoint does
    not contribute zero rows. *)
Lemma connection_failure_exports_configured_rows :
  let b := set_Data [["x"; "y"]] (sample_vcenter "b") in
  let s := run plain_bytes plain_csv world_refusing (round_robin 20)
               (boot plain_csv world_refusing (Decoded config_b_row)) in
  VCenters config_b_row !! 1%nat = Some (Some b) ∧
  (Connect (endpoint world_refusing 1) b).2 = Some "dial tcp: no route to host" ∧
  status s = Some 0 ∧
  job_rows plain_bytes world_refusing 1 (Some b) = [["x"; "y"]] ∧
  job_rows plain_bytes world_refusing 1 (Some b) ≠ [] ∧
  disk s = csv_bytes plain_csv
             ([Headers zero_hostStat] ++
              job_rows plain_bytes world_refusing 0 (Some (sample_vcenter "a")) ++
              [["x"; "y"]] ++
              job_rows plain_bytes world_refusing 2 (Some (sample_vcenter "c"))).
Proof. vm_compute. repeat split. discriminate. Qed.

(** C3: an endpoint whose cluster lookup fails at its third host, after
    the endpoints [a] and [c] have been collected, disconnected and
    signalled. [Init] has two rows when it calls [log.Fatal]; the process
    ends with status 1 while [main] still waits; there is no logout for
    [b]; and the file holds the header row only: the rows of [a] and [c]
    are lost with the process. *)
Lemma collection_failure_ends_process :
  let b := set_client (Some {| client_url := "https://u:p@b/sdk" |})
             (sample_vcenter "b") in
  let s := run plain_bytes plain_csv world_failing b_last
               (boot plain_csv world_failing (Decoded config_abc)) in
  length (Data (Init plain_bytes endpoint_failing b).1.1) = 2%nat ∧
  (Init plain_bytes endpoint_failing b).2 = Exit 1 ∧
  status s = Some 1 ∧
  pc s = MWait 2 ∧
  workers s = [WReturned; WInit 1; WReturned] ∧
  signalled s = [0; 2]%nat ∧
  (λ o : option VCenter, (λ v, length (Data v)) <$> o) <$> vcs s = [Some 1; Some 0; Some 1]%nat ∧
  logouts (events s) = [ {| client_url := "https://u:p@a/sdk" |};
                         {| client_url := "https://u:p@c/sdk" |} ] ∧
  disk s = csv_bytes plain_csv [Headers zero_hostStat].
Proof. vm_compute. repeat split. Qed.

(** C4: one endpoint, whose collection fails. Its job is dispatched and
    never signalled: the process ends with status 1 inside [Init], with
    [main] still waiting for the first token. *)
Lemma failed_collection_never_signals :
  let s := run plain_bytes plain_csv world_a_failing (round_robin 20)
               (boot plain_csv world_a_failing (Decoded config_a)) in
  status s = Some 1 ∧
  pc s = MWait 0 ∧
  workers s = [WInit 0] ∧
  signalled s = [] ∧
  tokens s = 0%nat.
Proof. vm_compute. repeat split. Qed.

(** C7: the destination cannot be opened. [newCsv] and [csvExport] return
    the error and [main] drops it: the row collected is not written,
    nothing about the failure is printed, [main] prints that the results
    were saved and the process ends with status 0. *)
Lemma sink_failure_not_reported :
  let s := run plain_bytes plain_csv world_readonly (round_robin 20)
               (boot plain_csv world_readonly (Decoded config_a)) in
  (newCsv plain_csv (create_fault world_readonly "out.csv") (Headers zero_hostStat)
          "out.csv" []).2 = Some "permission denied" ∧
  (csvExport plain_csv (append_fault world_readonly "out.csv" 0) [["row"]]
             "out.csv" []).2
    = Some "permission denied" ∧
  status s = Some 0 ∧
  (λ o : option VCenter, (λ v, length (Data v)) <$> o) <$> vcs s = [Some 1%nat] ∧
  disk s = [] ∧
  printed (events s) =
    [ "Main : 1 vcenters to collect data from in config";
      "Main : Submitting job to workers";
      "Worker 0 : Received vcenter job a";
      "Worker 0 : Connecting to vcenter: a";
      "Worker 0 : Collecting data";
      "Worker 0 : Done a";
      "Main : merging results...";
      "Main : worker 0 got 1 results from a";
      "Main : Results saved to out.csv" ].
Proof. vm_compute. repeat split. Qed.

(** C8: [config.json] cannot be opened. [main] prints the two errors and
    goes on with the empty configuration up to its last line; the process
    ends with status 0. When decoding fails after filling in an endpoint,
    [main] goes on to connect to it. *)
Lemma config_error_not_fatal :
  let s := run plain_bytes plain_csv world_ok (round_robin 20) (boot plain_csv world_ok Unreadable) in
  let s' := run plain_bytes plain_csv world_ok (round_robin 20)
                (boot plain_csv world_ok (Malformed config_a)) in
  status s = Some 0 ∧
  disk s = [] ∧
  printed (events s) =
    [ "Could not open configuration file config.json";
      "Could not decode configuration file config.json";
      "Main : 0 vcenters to collect data from in config";
      "Main : Submitting job to workers";
      "Main : merging results...";
      "Main : Results saved to " ] ∧
  status s' = Some 0 ∧
  printed (events s') =
    [ "Could not decode configuration file config.json";
      "Main : 1 vcenters to collect data from in config";
      "Main : Submitting job to workers";
      "Worker 0 : Received vcenter job a";
      "Worker 0 : Connecting to vcenter: a";
      "Worker 0 : Collecting data";
      "Worker 0 : Done a";
      "Main : merging results...";
      "Main : worker 0 got 1 results from a";
      "Main : Results saved to out.csv" ].
Proof. vm_compute. repeat split. Qed.

(** ** Further properties of the goroutines *)

(** The completion count: under every schedule no job is signalled
    twice, the tokens sent are those received and those still in the
    channel, and once [main] exports or has returned every job has been
    signalled, all tokens have been received and no worker holds a
    job. *)
Theorem completion_barrier (bs : Z → string) (csv : list string → list Byte.byte)
    (W : World) (src : config_file) (sch : list action) :
  let n := length (VCenters (load_config src).1) in
  let s := run bs csv W sch (boot csv W src) in
  NoDup (signalled s) ∧
  (tokens s + received n (pc s))%nat = length (signalled s) ∧
  match pc s with
  | MExport _ | MReturned =>
      signalled s ≡ₚ seq 0 n ∧ tokens s = 0%nat ∧
      held (workers s) = [] ∧ queue s = []
  | _ => True
  end.
Proof.
  intros n s. pose proof (run_count bs csv W _ sch _ (boot_count csv W src)) as HC.
  fold n s in HC. split; [|split].
  - pose proof (count_NoDup _ _ HC) as Hnd. by apply NoDup_app in Hnd as (? & _).
  - apply (ic_tokens _ _ HC).
  - destruct (pc s) eqn:Hpc; try done; apply (barrier _ _ HC); by rewrite Hpc.
Qed.

(** No deadlock and no endless run: under every schedule, as long as the
    process has not ended some goroutine can move, and some continuation of
    the schedule ends the process. *)
Theorem no_deadlock (bs : Z → string) (csv : list string → list Byte.byte)
    (W : World) (src : config_file) (sch : list action) :
  let s := run bs csv W sch (boot csv W src) in
  (status s = None → ∃ a s', step bs csv W a s = Some s') ∧
  (∃ sch', status (run bs csv W sch' s) ≠ None).
Proof.
  intros s. pose proof (run_count bs csv W _ sch _ (boot_count csv W src)) as HC.
  split; [by apply (progress bs csv W _ _ HC)|by apply (terminates bs csv W _ _ HC)].
Qed.

(** When no pointer of the configuration is nil and no job of it ends
    the process, [main] returns under some schedule, and under no schedule
    does the process end with a status other than 0. *)
Theorem returns_normally (bs : Z → string) (csv : list string → list Byte.byte)
    (W : World) (src : config_file) :
  all_return bs W (VCenters (load_config src).1) →
  (∃ sch, status (run bs csv W sch (boot csv W src)) = Some 0) ∧
  (∀ sch c, status (run bs csv W sch (boot csv W src)) = Some c → c = 0).
Proof. apply finishes. Qed.

Lemma returns_normally_witness :
  (∃ sch, status (run plain_bytes plain_csv world_ok sch (boot plain_csv world_ok (Decoded config_abc)))
          = Some 0) ∧
  (∀ sch c, status (run plain_bytes plain_csv world_ok sch (boot plain_csv world_ok (Decoded config_abc)))
            = Some c → c = 0).
Proof.
  apply (returns_normally plain_bytes plain_csv world_ok (Decoded config_abc)).
  intros [|[|[|j]]] o Hv; simpl in Hv; simplify_eq; do 2 eexists;
    (split; [reflexivity|]); vm_compute; reflexivity.
Defined.

(** A job that ends the process is never signalled under any schedule,
    [main] never returns, and the file stays as [newCsv] left it. *)
Theorem fatal_job_loses_everything (bs : Z → string)
    (csv : list string → list Byte.byte) (W : World)
    (src : config_file) (sch : list action) (j : nat) (v : VCenter) :
  let config := (load_config src).1 in
  let s := run bs csv W sch (boot csv W src) in
  VCenters config !! j = Some (Some v) →
  (∀ vf, lifecycle bs (endpoint W j) (v0 j v) ≠ Return vf) →
  (j ∉ signalled s) ∧ status s ≠ Some 0 ∧ disk s = disk (boot csv W src).
Proof. apply fatal_job. Qed.

Lemma fatal_job_loses_everything_witness :
  let s := run plain_bytes plain_csv world_failing b_last
               (boot plain_csv world_failing (Decoded config_abc)) in
  (1%nat ∉ signalled s) ∧ status s ≠ Some 0 ∧
  disk s = disk (boot plain_csv world_failing (Decoded config_abc)).
Proof.
  apply (fatal_job_loses_everything plain_bytes plain_csv world_failing
           (Decoded config_abc) b_last 1 (sample_vcenter "b")).
  - reflexivity.
  - intros vf. vm_compute. discriminate.
Defined.

(** * More about the sessions and the run *)

Section More.
Variable bs : Z → string.
Variable csv : list string → list Byte.byte.
Variable W : World.

(** ** What the session functions leave alone *)

Lemma Connect_keeps e v :
  let v' := (Connect e v).1.1 in
  Hostname v' = Hostname v ∧ Username v' = Username v ∧ Password v' = Password v ∧
  Data v' = Data v ∧ Worker v' = Worker v.
Proof. unfold Connect. destruct (url_Parse e), (NewClient e); done. Qed.

Lemma Connect_ok_client e v :
  (Connect e v).2 = None → is_Some (client (Connect e v).1.1).
Proof. unfold Connect. destruct (url_Parse e), (NewClient e); done. Qed.

Lemma set_Data_same v : set_Data (Data v) v = v.
Proof. by destruct v. Qed.

(** The loop of [Init] appends one row per host, in the order of the
    hosts, up to the first host at which it ends the process. *)
Lemma Init_hosts_spec e hss v :
  ∃ stats : list hostStat,
    let k := length stats in
    Forall2 (builds e) stats (take k hss) ∧
    (Init_hosts bs e hss v).1.1 = set_Data (Data v ++ (Slice bs <$> stats)) v ∧
    match (Init_hosts bs e hss v).2 with
    | Return None => k = length hss
    | Return (Some _) => False
    | Exit code => code = 1 ∧ ∃ hs err, hss !! k = Some hs ∧ fatal_at e hs err
    | Panic => ∃ hs, hss !! k = Some hs ∧ panics_at e hs
    end.
Proof.
  revert v. induction hss as [|hs hss IH]; intros v; simpl.
  - exists []. simpl. rewrite app_nil_r, set_Data_same. done.
  - destruct (mo.Parent hs) as [parent|] eqn:Hp.
    2:{ exists []. simpl. rewrite app_nil_r, set_Data_same.
        split; [done|]. split; [done|]. exists hs. split; [done|]. by left. }
    destruct (RetrieveOne e parent) as [cluster|err] eqn:Hc.
    2:{ exists []. simpl. rewrite app_nil_r, set_Data_same.
        split; [done|]. split; [done|]. split; [done|]. exists hs, err.
        split; [done|]. by exists parent. }
    destruct (host_stats cluster hs) as [st|] eqn:Hst.
    2:{ exists []. simpl. rewrite app_nil_r, set_Data_same.
        split; [done|]. split; [done|]. exists hs. split; [done|]. right.
        by exists parent, cluster. }
    destruct (IH (set_Data (Data v ++ [Slice bs st]) v)) as (stats & Hall & Hv & Ho).
    exists (st :: stats). simpl. split; [|split].
    + constructor; [|done]. by exists parent, cluster.
    + rewrite Hv. simpl. by rewrite <- app_assoc.
    + destruct (Init_hosts _ _ _ _).2 as [[err|]|code|]; [done|by f_equal|done..].
Qed.

Lemma Init_hosts_keeps e hss v :
  let v' := (Init_hosts bs e hss v).1.1 in
  Hostname v' = Hostname v ∧ Username v' = Username v ∧ Password v' = Password v ∧
  client v' = client v ∧ Worker v' = Worker v ∧ Data v `prefix_of` Data v'.
Proof.
  destruct (Init_hosts_spec e hss v) as (stats & _ & Hv & _). simpl. rewrite Hv.
  simpl. repeat split. by eexists.
Qed.

Lemma Init_spec e v :
  let r := Init bs e v in
  let v' := r.1.1 in
  (Hostname v' = Hostname v ∧ Username v' = Username v ∧ Password v' = Password v ∧
   client v' = client v ∧ Worker v' = Worker v) ∧
  Data v `prefix_of` Data v' ∧
  match r.2 with
  | Return None =>
      is_Some (client v) ∧
      ∃ hss stats,
        CreateContainerView e = None ∧ Retrieve e = Ok hss ∧
        Forall2 (builds e) stats hss ∧
        Data v' = Data v ++ (Slice bs <$> stats)
  | Return (Some _) => False
  | Exit code =>
      code = 1 ∧ is_Some (client v) ∧
      (is_Some (CreateContainerView e) ∨
       CreateContainerView e = None ∧
       ((∃ err, Retrieve e = Err err) ∨
        ∃ hss hs err, Retrieve e = Ok hss ∧ hs ∈ hss ∧ fatal_at e hs err))
  | Panic =>
      client v = None ∨
      CreateContainerView e = None ∧
      ∃ hss hs, Retrieve e = Ok hss ∧ hs ∈ hss ∧ panics_at e hs
  end.
Proof.
  unfold Init. simpl.
  destruct (client v) as [c|] eqn:Hcl; simpl.
  2:{ split; [done|]. split; [done|]. by left. }
  destruct (CreateContainerView e) as [err|] eqn:Hview; simpl.
  { split; [done|]. split; [done|]. split; [done|]. split; [done|]. by left. }
  destruct (Retrieve e) as [hss|err] eqn:Hret; simpl.
  2:{ split; [done|]. split; [done|]. split; [done|]. split; [done|].
      right. split; [done|]. left. by exists err. }
  pose proof (Init_hosts_keeps e hss v) as (Hh & Hu & Hp & Hc & Hw & Hd).
  destruct (Init_hosts_spec e hss v) as (stats & Hall & Hv & Ho).
  destruct (Init_hosts bs e hss v) as [[v' evs] out] eqn:Hinit; simpl in *.
  split; [repeat split; congruence|]. split; [done|].
  destruct out as [[err|]|code|]; [done| | |].
  - split; [done|]. exists hss, stats. rewrite Ho, firstn_all in Hall.
    rewrite Hv. done.
  - destruct Ho as (-> & hs & err & Hk & Hf). split; [done|]. split; [done|].
    right. split; [done|]. right. exists hss, hs, err. split; [done|].
    split; [by eapply list_elem_of_lookup_2|done].
  - destruct Ho as (hs & Hk & Hf). right. split; [done|].
    exists hss, hs. split; [done|]. split; [by eapply list_elem_of_lookup_2|done].
Qed.

(** [Init] as a whole: it changes nothing of the [VCenter] but [Data], to
    which it only adds rows, and it never returns an error. When it
    returns there is a session and it has added one row per host of the
    endpoint, in the order of the hosts, each built from the host and the
    name its cluster lookup gave. When it ends the process by
    [log.Fatal], the status is 1, there is a session, and the view, the
    list of hosts or the cluster lookup of a host has failed. When it
    panics there is no session, or a host has a nil pointer. *)
Theorem Init_collects (e : Endpoint) (v : VCenter) :
  let r := Init bs e v in
  let v' := r.1.1 in
  (Hostname v' = Hostname v ∧ Username v' = Username v ∧ Password v' = Password v ∧
   client v' = client v ∧ Worker v' = Worker v) ∧
  Data v `prefix_of` Data v' ∧
  match r.2 with
  | Return None =>
      is_Some (client v) ∧
      ∃ hss stats,
        CreateContainerView e = None ∧ Retrieve e = Ok hss ∧
        Forall2 (builds e) stats hss ∧
        Data v' = Data v ++ (Slice bs <$> stats)
  | Return (Some _) => False
  | Exit code =>
      code = 1 ∧ is_Some (client v) ∧
      (is_Some (CreateContainerView e) ∨
       CreateContainerView e = None ∧
       ((∃ err, Retrieve e = Err err) ∨
        ∃ hss hs err, Retrieve e = Ok hss ∧ hs ∈ hss ∧ fatal_at e hs err))
  | Panic =>
      client v = None ∨
      CreateContainerView e = None ∧
      ∃ hss hs, Retrieve e = Ok hss ∧ hs ∈ hss ∧ panics_at e hs
  end.
Proof. apply Init_spec. Qed.

Lemma lifecycle_keeps e v vf :
  lifecycle bs e v = Return vf →
  keeps_definition v vf ∧ Worker vf = Worker v.
Proof.
  unfold lifecycle. intros H.
  pose proof (Connect_keeps e v) as (Hh & Hu & Hp & Hd & Hw).
  destruct (Connect e v) as [[v1 evs1] err]. simpl in *.
  destruct err as [err|].
  - simplify_eq. unfold keeps_definition. rewrite Hd. done.
  - pose proof (Init_spec e v1) as ((Hh' & Hu' & Hp' & _ & Hw') & Hd' & _).
    destruct (Init bs e v1) as [[v2 evs2] out]. simpl in *.
    destruct out; simplify_eq. unfold keeps_definition.
    rewrite <- Hd. repeat split; congruence.
Qed.

(** ** Rows of the width of the header *)

Lemma Slice_width r : length (Slice bs r) = width.
Proof. done. Qed.

Lemma endpoint_rows_rectangular e v :
  rectangular (Data v) → rectangular (endpoint_rows bs e v).
Proof.
  unfold endpoint_rows, lifecycle, rectangular. intros Hv.
  pose proof (Connect_keeps e v) as (_ & _ & _ & Hd & _).
  destruct (Connect e v) as [[v1 evs1] err]. simpl in *.
  destruct err as [err|]; [by rewrite Hd|].
  pose proof (Init_spec e v1) as (_ & _ & Hout).
  destruct (Init bs e v1) as [[v2 evs2] [[err|]|code|]]; simpl in *; try done.
  destruct Hout as (_ & hss & stats & _ & _ & _ & ->).
  rewrite Hd. apply Forall_app. split; [done|].
  apply Forall_fmap, Forall_true. intros st. apply Slice_width.
Qed.

Lemma job_rows_rectangular j o :
  (∀ v, o = Some v → rectangular (Data v)) → rectangular (job_rows bs W j o).
Proof.
  destruct o as [v|]; simpl; intros H; [|constructor].
  apply endpoint_rows_rectangular. by apply H.
Qed.

(** Every row the run writes has as many fields as the header row when
    no write fails: under every schedule the file holds, after the header
    line, or after what it held before when [newCsv] could not open it,
    the lines of rows of that width; this when the rows the configuration
    gave for the endpoints have that width. *)
Theorem rows_match_header (src : config_file) (sch : list action) :
  let config := (load_config src).1 in
  let s := run bs csv W sch (boot csv W src) in
  all_or_nothing (create_fault W (Outpath config)) →
  (∀ k, all_or_nothing (append_fault W (Outpath config) k)) →
  Forall (λ o, ∀ v, o = Some v → rectangular (Data v)) (VCenters config) →
  (disk (boot csv W src) = csv_bytes csv [Headers zero_hostStat] ∨
   disk (boot csv W src) = disk0 W) ∧
  ∃ rows, rectangular rows ∧ disk s = disk (boot csv W src) ++ csv_bytes csv rows.
Proof.
  intros config s Hcreate Happend Hcfg. split.
  - unfold boot. fold config. destruct (load_config src) as [c evs] eqn:Hload.
    subst config. simpl in *. unfold newCsv.
    destruct (create_fault W (Outpath c)) as [[err|n seen]|]; simpl; auto. done.
  - destruct (run_Inv bs csv W _ _ _ sch _ (boot_Inv bs csv W src))
      as (_ & _ & _ & _ & Hdisk).
    fold s config in Hdisk.
    set (kept := λ j (o : option VCenter),
           match append_fault W (Outpath config) j with
           | Some _ => []
           | None => job_rows bs W j o
           end).
    exists (concat (imap kept
              (take (exported (length (VCenters config)) (pc s)) (VCenters config)))).
    split.
    + apply Forall_concat, Forall_forall. intros rows Hin.
      apply elem_of_lookup_imap in Hin as (j & o & -> & Ho). unfold kept.
      destruct (append_fault W (Outpath config) j); [constructor|].
      apply job_rows_rectangular. apply lookup_take_Some in Ho as [Ho _].
      by apply (Forall_lookup_1 _ _ _ _ Hcfg Ho).
    + rewrite Hdisk, csv_bytes_concat_imap. do 2 f_equal. apply imap_ext.
      intros j o _. unfold kept, written. specialize (Happend j).
      by destruct (append_fault W (Outpath config) j) as [[err|n seen]|].
Qed.

(** ** The file during the run *)

(** A step appends rows or leaves the file alone. *)
Lemma step_disk a s s' :
  step bs csv W a s = Some s' → disk s `prefix_of` disk s'.
Proof.
  unfold step. destruct (status s); [done|]. destruct a as [|w]; intros Hstep.
  - unfold main_step in Hstep. destruct (pc s); repeat case_match; simplify_eq/=;
      try done.
    match goal with
    | H : csvExport _ ?ft ?d ?p ?f = _ |- _ =>
        pose proof (csvExport_written csv ft d p f) as Hw; rewrite H in Hw
    end.
    simpl in Hw. subst. by eexists.
  - unfold worker_step, with_object in Hstep.
    destruct (workers s !! w) as [p|]; [|done].
    destruct p as [|j|j|j|j|]; simpl in *.
    + destruct (queue s) as [|j q]; [destruct (closed s)|];
        [..|destruct (vcs s !! j) as [[v|]|]]; simplify_eq/=; done.
    + destruct (vcs s !! j) as [[v|]|]; simplify_eq/=; try done.
      destruct (Connect _ _) as [[v' evs] [e|]]; simplify_eq/=; done.
    + destruct (vcs s !! j) as [[v|]|]; simplify_eq/=; try done.
      destruct (Init _ _ _) as [[v' evs] [[e|]|code|]]; simplify_eq/=; done.
    + destruct (vcs s !! j) as [[v|]|]; simplify_eq/=; try done.
      destruct (Disconnect _ _); simplify_eq/=; done.
    + case_decide; simplify_eq/=; done.
    + done.
Qed.

Lemma run_app sch sch' s : run bs csv W (sch ++ sch') s = run bs csv W sch' (run bs csv W sch s).
Proof.
  revert s. induction sch as [|a sch IH]; intros s; simpl; [done|].
  destruct (step bs csv W a s); apply IH.
Qed.

Lemma run_disk sch s : disk s `prefix_of` disk (run bs csv W sch s).
Proof.
  revert s. induction sch as [|a sch IH]; intros s; simpl; [done|].
  destruct (step bs csv W a s) as [s'|] eqn:Hstep; [|done].
  etrans; [by eapply step_disk|done].
Qed.

(** What is in the file stays in it, at its place: what the file holds
    at any moment of a run is the beginning of what it holds at any later
    moment. *)
Theorem file_only_grows (src : config_file) (sch sch' : list action) :
  disk (run bs csv W sch (boot csv W src)) `prefix_of`
  disk (run bs csv W (sch ++ sch') (boot csv W src)).
Proof. rewrite run_app. apply run_disk. Qed.

(** A failure of the file system does not end the export: when [main]
    has returned, the file holds, after what [newCsv] left, for each
    endpoint in the order of the configuration the bytes the file
    accepted of the lines of its rows: all of them, or a beginning that
    may end inside a row, or none. The endpoints after a failure are
    exported all the same, and their bytes follow at once. *)
Theorem export_despite_faults (src : config_file) (sch : list action) :
  let config := (load_config src).1 in
  let s := run bs csv W sch (boot csv W src) in
  status s = Some 0 →
  disk s = disk (boot csv W src) ++
    concat (imap (λ j o, accepted (append_fault W (Outpath config) j)
                           (csv_bytes csv (job_rows bs W j o)))
                 (VCenters config)).
Proof. apply export_disk. Qed.

(** ** The channels *)

(** No send blocks: a worker that is about to send its token finds room
    in [done], and [main] finds room in [vcenters] for every job. *)
Theorem sends_never_block (src : config_file) (sch : list action) :
  let s := run bs csv W sch (boot csv W src) in
  let vcenterCount := length (vcs s) in
  (∀ w j, workers s !! w = Some (WDone j) → (tokens s < vcenterCount)%nat) ∧
  (∀ i, pc s = MSubmit i → (i < vcenterCount)%nat →
        (length (queue s) < vcenterCount)%nat).
Proof.
  intros s n. pose proof (run_count bs csv W _ sch _ (boot_count csv W src)) as HC.
  fold s in HC. pose proof (count_lengths _ _ HC) as Hlen.
  pose proof (ic_tokens _ _ HC) as Ht. pose proof (ic_counter _ _ HC) as Hc.
  unfold n. rewrite (ic_vcs _ _ HC). split.
  - intros w j Hw.
    assert (j ∈ held (workers s)) as Hin.
    { apply elem_of_held. exists w, (WDone j). split; [done|left]. }
    destruct (held (workers s)); [by apply elem_of_nil in Hin|].
    simpl in Hlen. destruct (pc s); simpl in *; lia.
  - intros i Hpc Hi. rewrite Hpc in Hlen. simpl in Hlen. lia.
Qed.

(** Every job is delivered once: at any moment the jobs signalled, the
    jobs held by the workers and the jobs in the queue are pairwise
    different positions of the configuration, so no [VCenter] is with two
    workers, nor with a worker again after its token was sent. *)
Theorem jobs_delivered_once (src : config_file) (sch : list action) :
  let s := run bs csv W sch (boot csv W src) in
  NoDup (signalled s ++ held (workers s) ++ queue s) ∧
  (∀ j, j ∈ signalled s ++ held (workers s) ++ queue s →
        (j < length (VCenters (load_config src).1))%nat) ∧
  (∀ w w' p p' j, workers s !! w = Some p → workers s !! w' = Some p' →
                  j ∈ holds p → j ∈ holds p' → w = w').
Proof.
  intros s. pose proof (run_count bs csv W _ sch _ (boot_count csv W src)) as HC.
  fold s in HC. pose proof (count_NoDup _ _ HC) as Hnd.
  split; [done|]. split; [intros j; by apply count_job_lt|].
  intros w w' p p' j. apply held_distinct.
  apply NoDup_app in Hnd as (_ & _ & Hnd). by apply NoDup_app in Hnd as (? & _).
Qed.

(** ** Invariants along a run *)

Lemma run_invariant (P : state → Prop) cfg0 path d0 :
  (∀ a s s', Inv bs csv W cfg0 path d0 s → P s → step bs csv W a s = Some s' → P s') →
  ∀ sch s, Inv bs csv W cfg0 path d0 s → P s → P (run bs csv W sch s).
Proof.
  intros Hstep sch. induction sch as [|a sch IH]; intros s HI HP; simpl; [done|].
  destruct (step bs csv W a s) as [s'|] eqn:Hs; [|by apply IH].
  apply IH; [by eapply step_Inv|by eapply Hstep].
Qed.

(** A worker holds a job of the configuration, at the stage at which the
    worker stands. *)
Lemma held_job cfg0 path d0 s w p j :
  Inv bs csv W cfg0 path d0 s → workers s !! w = Some p → j ∈ holds p →
  ∃ v, cfg0 !! j = Some (Some v) ∧ at_stage bs W p j v (vcs s !! j).
Proof.
  intros (HC & HD & _) Hw Hj.
  destruct (job_not_nil bs W cfg0 s j HC HD) as [v Hv].
  { rewrite !elem_of_app. right. left. apply elem_of_held. eauto. }
  exists v. split; [done|]. by eapply (id_held _ _ _ _ HD).
Qed.

(** ** How the process ends *)

Lemma Init_hosts_fatal e hss v v' evs code :
  Init_hosts bs e hss v = (v', evs, Exit code) → ∃ err, evs = [LogFatal err].
Proof.
  revert v. induction hss as [|hs hss IH]; intros v; simpl; [done|].
  destruct (mo.Parent hs); [|done].
  destruct (RetrieveOne e _) as [c|err]; [|intros; simplify_eq; by eexists].
  destruct (host_stats c hs); [apply IH|done].
Qed.

Lemma Init_hosts_quiet e hss v v' evs r :
  Init_hosts bs e hss v = (v', evs, Return r) → evs = [].
Proof.
  revert v. induction hss as [|hs hss IH]; intros v; simpl; [congruence|].
  destruct (mo.Parent hs); [|done].
  destruct (RetrieveOne e _) as [c|err]; [|done].
  destruct (host_stats c hs); [apply IH|done].
Qed.

Lemma Init_fatal_events e v v' evs code :
  Init bs e v = (v', evs, Exit code) → ∃ err, LogFatal err ∈ evs.
Proof.
  unfold Init. intros H. destruct (client v); [|done].
  destruct (CreateContainerView e) as [err|].
  { simplify_eq. exists err. right. left. }
  destruct (Retrieve e) as [hss|err].
  2:{ simplify_eq. exists err. right. left. }
  destruct (Init_hosts bs e hss v) as [[v1 evs1] out] eqn:Hh. simplify_eq.
  destruct (Init_hosts_fatal _ _ _ _ _ _ Hh) as [err ->]. exists err. right. left.
Qed.

Ltac quiet :=
  let Hin := fresh in
  intros Hin; repeat (apply elem_of_cons in Hin as [?|Hin]; [done|]);
  by apply elem_of_nil in Hin.

Lemma Connect_quiet e v err : LogFatal err ∉ (Connect e v).1.2.
Proof.
  unfold Connect, worker_says. destruct (url_Parse e), (NewClient e); simpl; quiet.
Qed.

Lemma Disconnect_quiet e v err : LogFatal err ∉ (Disconnect e v).1.
Proof.
  unfold Disconnect, worker_says. destruct (client v), (Logout e); simpl; quiet.
Qed.

Lemma Init_quiet e v r err : (Init bs e v).2 = Return r → LogFatal err ∉ (Init bs e v).1.2.
Proof.
  unfold Init, worker_says. destruct (client v); [|done].
  destruct (CreateContainerView e); [done|]. destruct (Retrieve e) as [hss|]; [|done].
  destruct (Init_hosts bs e hss v) as [[v1 evs1] out] eqn:Hh. simpl. intros ->.
  rewrite (Init_hosts_quiet _ _ _ _ _ _ Hh). quiet.
Qed.

(** How a step ends the process, if it does. *)
Lemma step_exit a s s' :
  step bs csv W a s = Some s' →
  (status s' = None ∧ ∃ evs, events s' = events s ++ evs ∧ ∀ err, LogFatal err ∉ evs) ∨
  (status s' = Some 0 ∧ pc s' = MReturned ∧
   events s' = events s ++ [Stdout (Println ["Main : Results saved to"; outpath s])]) ∨
  (∃ w j vv, workers s !! w = Some (WInit j) ∧ vcs s !! j = Some (Some vv) ∧
             events s' = events s ++ (Init bs (endpoint W j) vv).1.2 ∧
             match (Init bs (endpoint W j) vv).2 with
             | Exit code => status s' = Some code
             | Panic => status s' = Some 2
             | Return _ => False
             end) ∨
  (s' = set_status (Some 2) s ∧
   ∃ j, vcs s !! j = Some None ∧
        (pc s = MSpawn j ∨ pc s = MExport j ∨ j ∈ queue s ∨ j ∈ held (workers s))).
Proof.
  assert (∀ err, LogFatal err ∉ @nil event) as Hnil by (intros err; apply not_elem_of_nil).
  assert (∀ l err, LogFatal err ∉ [Stdout l]) as Hone.
  { intros l err Hin. apply list_elem_of_singleton in Hin. done. }
  unfold step. destruct (status s) eqn:Hst; [done|]. destruct a as [|w]; intros Hstep.
  - unfold main_step in Hstep.
    destruct (pc s) eqn:Hpc; repeat case_match; simplify_eq/=; rewrite ?Hst;
      first [ right; left; done
            | left; split; [done|]; first [ by eexists | by exists []; rewrite app_nil_r ]
            | right; right; right; split; [done|]; eauto ].
  - unfold worker_step, with_object in Hstep.
    destruct (workers s !! w) as [p|] eqn:Hp; [|done].
    assert (∀ j, j ∈ holds p → vcs s !! j = Some None → s' = set_status (Some 2) s →
      s' = set_status (Some 2) s ∧
      ∃ j, vcs s !! j = Some None ∧
           (pc s = MSpawn j ∨ pc s = MExport j ∨ j ∈ queue s ∨ j ∈ held (workers s)))
      as Hpanic.
    { intros j Hj Hvj ->. split; [done|]. exists j. split; [done|]. do 3 right.
      apply elem_of_held. eauto. }
    destruct p as [|j|j|j|j|]; simpl in *.
    + destruct (queue s) as [|j q] eqn:Hq; [destruct (closed s)|];
        [..|destruct (vcs s !! j) as [[v|]|] eqn:Hvj]; simplify_eq/=;
        first [ left; (split; [done|]);
                first [ by eexists | by exists []; rewrite app_nil_r ]
              | do 3 right; split; [done|]; exists j; split; [done|];
                right; right; left; left ].
    + destruct (vcs s !! j) as [[vv|]|] eqn:Hvj;
        [|do 3 right; apply (Hpanic j); [left|done|by simplify_eq]|done].
      pose proof (Connect_quiet (endpoint W j) vv) as Hq.
      destruct (Connect _ _) as [[v' evs] [e|]]; simplify_eq/=; left;
        (split; [done|]); rewrite <- ?app_assoc; eexists; (split; [done|]).
      * intros err Hin. apply elem_of_app in Hin as [Hin|Hin]; [by eapply Hq|].
        by eapply Hone.
      * done.
    + destruct (vcs s !! j) as [[vv|]|] eqn:Hvj;
        [|do 3 right; apply (Hpanic j); [left|done|by simplify_eq]|done].
      pose proof (Init_quiet (endpoint W j) vv) as Hq.
      destruct (Init _ _ _) as [[v' evs] out] eqn:Hinit.
      destruct out as [[e|]|code|]; simplify_eq/=;
        try (right; right; left; exists w, j, vv; rewrite Hinit; done);
        left; (split; [done|]); rewrite <- ?app_assoc; eexists; (split; [done|]).
      * intros err. by eapply Hq.
      * intros err Hin. apply elem_of_app in Hin as [Hin|Hin];
          [by eapply (Hq _ err eq_refl)|].
        by eapply Hone.
    + destruct (vcs s !! j) as [[vv|]|] eqn:Hvj;
        [|do 3 right; apply (Hpanic j); [left|done|by simplify_eq]|done].
      pose proof (Disconnect_quiet (endpoint W j) vv) as Hq.
      destruct (Disconnect _ _); simplify_eq/=; left; (split; [done|]); by eexists.
    + case_decide; simplify_eq/=; left; (split; [done|]); by exists []; rewrite app_nil_r.
    + done.
Qed.

(** The process ends in one of three ways. [main] returns: the status
    is 0, [log.Fatal] has not been called and the line about the saved
    results is the last one printed. Or [log.Fatal] ends it inside [Init],
    with status 1, for an endpoint whose collection fails after its
    connection succeeded. Or it panics on a nil pointer, with status 2:
    [main] at a nil element of [VCenters] when it starts the workers, or
    [Init] at a host that lacks a part, for an endpoint whose connection
    succeeded. No worker ever receives a nil pointer, and [Init] never
    runs without a session. *)
Theorem exit_status (src : config_file) (sch : list action) :
  let config := (load_config src).1 in
  let s := run bs csv W sch (boot csv W src) in
  status s = None ∨
  (status s = Some 0 ∧ pc s = MReturned ∧
   (∀ err, LogFatal err ∉ events s) ∧
   ∃ pre, events s = pre ++ [Stdout (Println ["Main : Results saved to"; Outpath config])]) ∨
  (status s = Some 1 ∧
   ∃ j v err,
     VCenters config !! j = Some (Some v) ∧
     (Connect (endpoint W j) (v0 j v)).2 = None ∧
     lifecycle bs (endpoint W j) (v0 j v) = Exit 1 ∧
     LogFatal err ∈ events s) ∨
  (status s = Some 2 ∧
   ((∃ i, pc s = MSpawn i ∧ VCenters config !! i = Some None) ∨
    (∃ j v hss hs,
       VCenters config !! j = Some (Some v) ∧
       (Connect (endpoint W j) (v0 j v)).2 = None ∧
       lifecycle bs (endpoint W j) (v0 j v) = Panic ∧
       Retrieve (endpoint W j) = Ok hss ∧ hs ∈ hss ∧ panics_at (endpoint W j) hs))).
Proof.
  intros config s.
  set (P := λ s : state,
    (status s = None ∧ ∀ err, LogFatal err ∉ events s) ∨
    (status s = Some 0 ∧ pc s = MReturned ∧
     (∀ err, LogFatal err ∉ events s) ∧
     ∃ pre, events s = pre ++ [Stdout (Println ["Main : Results saved to"; Outpath config])]) ∨
    (status s = Some 1 ∧
     ∃ j v err,
       VCenters config !! j = Some (Some v) ∧
       (Connect (endpoint W j) (v0 j v)).2 = None ∧
       lifecycle bs (endpoint W j) (v0 j v) = Exit 1 ∧
       LogFatal err ∈ events s) ∨
    (status s = Some 2 ∧
     ((∃ i, pc s = MSpawn i ∧ VCenters config !! i = Some None) ∨
      (∃ j v hss hs,
         VCenters config !! j = Some (Some v) ∧
         (Connect (endpoint W j) (v0 j v)).2 = None ∧
         lifecycle bs (endpoint W j) (v0 j v) = Panic ∧
         Retrieve (endpoint W j) = Ok hss ∧ hs ∈ hss ∧ panics_at (endpoint W j) hs)))).
  assert (P s) as [[? _]|HP]; [|by left|by right]. unfold s.
  eapply run_invariant; [|apply boot_Inv|].
  - clear s. intros a s s' HI HP Hstep.
    assert (status s = None) as Hnone.
    { unfold step in Hstep. by destruct (status s). }
    destruct HP as [[_ Hnf]|[(Hst & _)|[(Hst & _)|(Hst & _)]]]; [|congruence..].
    destruct (step_exit _ _ _ Hstep)
      as [(Hst' & evs & Hev & Hq)|[(Hst' & Hpc & Hev)|
          [(w & j & vv & Hw & Hvj & Hev & Hm)|(-> & j & Hj & Hwhere)]]].
    + left. split; [done|]. intros err. rewrite Hev, elem_of_app.
      intros [Hin|Hin]; [by eapply Hnf|by eapply Hq].
    + right. left. destruct HI as (_ & _ & Hpath & _). rewrite Hpath in Hev.
      repeat split; [done..| |by eexists].
      intros err. rewrite Hev, elem_of_app. intros [Hin|Hin]; [by eapply Hnf|].
      apply list_elem_of_singleton in Hin. done.
    + destruct (held_job _ _ _ _ w (WInit j) j HI Hw ltac:(left)) as (v & Hv & Hok & Hat).
      rewrite Hvj in Hat. injection Hat as ->.
      pose proof (Connect_ok_client _ _ Hok) as Hc.
      destruct (Connect (endpoint W j) (v0 j v)) as [[v1 evs1] e1] eqn:Hconn.
      simpl in *. subst e1.
      pose proof (lifecycle_init bs _ _ _ _ Hconn) as Hlife.
      pose proof (Init_spec (endpoint W j) v1) as (_ & _ & Hout).
      destruct (Init bs (endpoint W j) v1) as [[v2 evs2] [r|code|]] eqn:Hinit;
        simpl in *; [done| |].
      * destruct Hout as (-> & _). right. right. left.
        destruct (Init_fatal_events _ _ _ _ _ Hinit) as (err & Herr).
        split; [done|]. exists j, v, err.
        split; [done|]. split; [by rewrite Hconn|]. split; [done|].
        rewrite Hev, elem_of_app. by right.
      * do 3 right. split; [done|]. right.
        destruct Hout as [Hnil|(_ & hss & hs & Hret & Hin & Hp)].
        { rewrite Hnil in Hc. by destruct Hc. }
        exists j, v, hss, hs. split; [done|]. split; [by rewrite Hconn|]. done.
    + do 3 right. split; [done|]. left. simpl.
      pose proof (nil_stays bs csv W _ _ _ _ _ HI Hj) as Hc.
      destruct HI as (HC & HD & _).
      destruct (id_nil _ _ _ _ HD j Hc) as [_ Hsp].
      destruct Hwhere as [Hpc|[Hpc|Hin]]; [by exists j| |].
      * rewrite Hpc in Hsp. simpl in Hsp. apply lookup_lt_Some in Hc. lia.
      * destruct (job_not_nil bs W _ s j HC HD) as [v Hv]; [|congruence].
        rewrite !elem_of_app. tauto.
  - left. unfold boot. destruct (load_config src) as [c evs] eqn:Hload.
    destruct (newCsv _ _ _ _ _) as [f o]. simpl. split; [done|].
    intros err. rewrite elem_of_app. intros [Hin|Hin].
    + destruct src; simplify_eq/=; revert Hin; quiet.
    + revert Hin; quiet.
Qed.

(** ** What the run leaves of the configuration *)

Lemma v0_keeps j v : keeps_definition v (v0 j v) ∧ Worker (v0 j v) = Z.of_nat j.
Proof. by unfold keeps_definition, v0. Qed.

Lemma keeps_definition_trans v1 v2 v3 :
  keeps_definition v1 v2 → keeps_definition v2 v3 → keeps_definition v1 v3.
Proof.
  unfold keeps_definition. intros (? & ? & ? & ?) (? & ? & ? & ?).
  repeat split; try congruence. by etrans.
Qed.

(** The run never changes the name or the credentials of an endpoint, and
    it only adds rows to the rows the configuration gave for it: at every
    moment, under every schedule, each [VCenter] is the one of the
    configuration at the same position with its session and [Worker]
    perhaps set and rows perhaps appended, and a nil element stays nil;
    and from the moment its worker goroutine was started its [Worker] is
    its position. *)
Theorem definitions_preserved (src : config_file) (sch : list action) :
  let config := (load_config src).1 in
  let s := run bs csv W sch (boot csv W src) in
  Forall2 (option_Forall2 keeps_definition) (VCenters config) (vcs s) ∧
  (∀ j v, vcs s !! j = Some (Some v) → (j < length (workers s))%nat →
          Worker v = Z.of_nat j).
Proof.
  intros config s.
  pose proof (run_Inv bs csv W _ _ _ sch _ (boot_Inv bs csv W src)) as HI.
  fold s config in HI. pose proof HI as (HC & HD & _).
  assert (∀ j v, VCenters config !! j = Some (Some v) →
            ∃ v', vcs s !! j = Some (Some v') ∧ keeps_definition v v' ∧
                  ((j < length (workers s))%nat → Worker v' = Z.of_nat j)) as Hall.
  { intros j v Hv.
    pose proof (v0_keeps j v) as [Hk0 Hw0].
    destruct (decide (j ∈ signalled s ∨ j ∈ held (workers s))) as [Hin|Hout].
    - assert (∃ v', vcs s !! j = Some (Some v') ∧
               (v' = v0 j v ∨ v' = (Connect (endpoint W j) (v0 j v)).1.1 ∨
                lifecycle bs (endpoint W j) (v0 j v) = Return v')) as (v' & Hj & Hv').
      { destruct Hin as [Hs|Hh].
        - destruct (id_signalled _ _ _ _ HD j v Hs Hv) as (vf & Hl & Ho). eauto 6.
        - apply elem_of_held in Hh as (w & p & Hw & Hj).
          pose proof (id_held _ _ _ _ HD w p j v Hw Hj Hv) as Hat.
          destruct p; simpl in Hat; try (by apply elem_of_nil in Hj).
          + eauto 6.
          + destruct Hat as [_ Ho]. eauto 6.
          + destruct Hat as (_ & vf & Hl & Ho). eauto 6.
          + destruct Hat as (vf & Hl & Ho). eauto 6. }
      exists v'. split; [done|].
      destruct Hv' as [->|[->|Hl]].
      + done.
      + pose proof (Connect_keeps (endpoint W j) (v0 j v)) as (Hh & Hu & Hp & Hd & Hw).
        split; [|intros _; congruence].
        eapply keeps_definition_trans; [exact Hk0|].
        unfold keeps_definition. rewrite Hd. done.
      + apply lifecycle_keeps in Hl as [Hk Hw].
        split; [by eapply keeps_definition_trans|intros _; congruence].
    - assert ((j ∉ signalled s) ∧ (j ∉ held (workers s))) as [Hs Hh].
      { tauto. }
      eexists. split; [by apply (id_rest _ _ _ _ HD j v Hv Hs Hh)|].
      rewrite (ic_workers _ _ HC). case_decide; [done|].
      split; [|done]. unfold keeps_definition. done. }
  split.
  - apply Forall2_same_length_lookup_2; [by rewrite (ic_vcs _ _ HC)|].
    intros j [v|] o' Hv Hv'.
    + destruct (Hall j v Hv) as (v'' & Hj & Hk & _). rewrite Hv' in Hj.
      injection Hj as ->. by constructor.
    + destruct (id_nil _ _ _ _ HD j Hv) as [Hj _]. rewrite Hv' in Hj.
      injection Hj as ->. constructor.
  - intros j v' Hv' Hlt.
    assert (j < length (VCenters config))%nat as Hj.
    { rewrite <- (ic_vcs _ _ HC). by eapply lookup_lt_Some. }
    destruct (lookup_lt_is_Some_2 _ _ Hj) as [[v|] Hv].
    + destruct (Hall j v Hv) as (v'' & Hj' & _ & Hw). rewrite Hv' in Hj'.
      injection Hj' as <-. by apply Hw.
    + destruct (id_nil _ _ _ _ HD j Hv) as [Hj' _]. congruence.
Qed.

(** ** Sessions *)

Lemma logouts_app evs evs' : logouts (evs ++ evs') = logouts evs ++ logouts evs'.
Proof. apply omap_app. Qed.

Lemma Connect_logouts e v : logouts (Connect e v).1.2 = [].
Proof. unfold Connect. destruct (url_Parse e), (NewClient e); done. Qed.

Lemma Init_hosts_logouts e hss v : logouts (Init_hosts bs e hss v).1.2 = [].
Proof.
  revert v. induction hss as [|hs hss IH]; intros v; simpl; [done|].
  destruct (mo.Parent hs); [|done].
  destruct (RetrieveOne e _) as [c|err]; [|done].
  destruct (host_stats c hs); [apply IH|done].
Qed.

Lemma Init_logouts e v : logouts (Init bs e v).1.2 = [].
Proof.
  unfold Init. destruct (client v); [|done].
  destruct (CreateContainerView e); [done|]. destruct (Retrieve e) as [hss|]; [|done].
  pose proof (Init_hosts_logouts e hss v) as H.
  by destruct (Init_hosts bs e hss v) as [[v1 evs] out].
Qed.

Lemma Disconnect_logouts e v : logouts (Disconnect e v).1 = option_list (client v).
Proof. unfold Disconnect. destruct (client v), (Logout e); done. Qed.

Lemma done_jobs_app ws p : done_jobs (ws ++ [p]) = done_jobs ws ++ finished p.
Proof. unfold done_jobs. rewrite bind_app. simpl. by rewrite app_nil_r. Qed.

Lemma done_jobs_insert ws w p q :
  ws !! w = Some p →
  done_jobs (<[w:=q]> ws) ++ finished p ≡ₚ finished q ++ done_jobs ws.
Proof.
  revert w. induction ws as [|a ws IH]; intros [|w] Hw; simplify_eq/=.
  - unfold done_jobs; simpl. fold (done_jobs ws).
    rewrite (Permutation_app_comm (finished q ++ done_jobs ws)).
    rewrite !app_assoc. apply Permutation_app_tail, Permutation_app_comm.
  - unfold done_jobs; simpl. fold (done_jobs ws) (done_jobs (<[w:=q]> ws)).
    rewrite <- app_assoc, (IH _ Hw), !app_assoc.
    apply Permutation_app_tail, Permutation_app_comm.
Qed.

Lemma done_jobs_held ws : held ws = [] → done_jobs ws = [].
Proof.
  induction ws as [|p ws IH]; [done|].
  change (held (p :: ws)) with (holds p ++ held ws).
  change (done_jobs (p :: ws)) with (finished p ++ done_jobs ws).
  intros H. apply app_eq_nil in H as [Hp Hws]. rewrite (IH Hws). by destruct p.
Qed.

(** What a step does to the sessions: [js] are the jobs that reach the
    point where their worker is about to send the token. *)
Lemma step_sessions cfg0 path d0 a s s' :
  Inv bs csv W cfg0 path d0 s → step bs csv W a s = Some s' →
  ∃ js, logouts (events s') = logouts (events s) ++ (js ≫= session_of W cfg0) ∧
        signalled s' ++ done_jobs (workers s') ≡ₚ
          (signalled s ++ done_jobs (workers s)) ++ js.
Proof.
  intros HI. unfold step. destruct (status s) eqn:Hst; [done|].
  destruct a as [|w]; intros Hstep.
  - exists []. rewrite !app_nil_r. unfold main_step in Hstep.
    destruct (pc s); repeat case_match; simplify_eq/=;
      rewrite ?logouts_app, ?done_jobs_app, ?app_nil_r; done.
  - unfold worker_step, with_object in Hstep.
    destruct (workers s !! w) as [p|] eqn:Hp; [|done].
    destruct p as [|j|j|j|j|]; simpl in *.
    + exists []. rewrite !app_nil_r.
      assert (∀ q, finished q = [] → done_jobs (<[w:=q]> (workers s)) ≡ₚ
                                     done_jobs (workers s)) as Hq.
      { intros q Hq. pose proof (done_jobs_insert _ _ _ q Hp) as H1.
        rewrite Hq in H1. simpl in H1. by rewrite app_nil_r in H1. }
      destruct (queue s); [destruct (closed s)|destruct (vcs s !! _) as [[?|]|]];
        simplify_eq/=; rewrite ?logouts_app, ?app_nil_r; (split; [done|]);
        try done; apply Permutation_app_head; by apply Hq.
    + destruct (held_job _ _ _ _ w (WConnect j) j HI Hp ltac:(left)) as (v & Hv & Hat).
      simpl in Hat. rewrite Hat in Hstep. simpl in Hstep.
      pose proof (Connect_logouts (endpoint W j) (v0 j v)) as Hl.
      destruct (Connect _ _) as [[v' evs] [e|]] eqn:Hconn; simplify_eq/=.
      * exists [j]. simpl. rewrite !logouts_app, Hl, !app_nil_r.
        unfold session_of at 1. rewrite Hv, Hconn, app_nil_r. split; [done|].
        rewrite <- app_assoc. apply Permutation_app_head.
        pose proof (done_jobs_insert _ _ _ (WDone j) Hp) as H1.
        simpl in H1. rewrite app_nil_r in H1. rewrite H1. apply Permutation_cons_append.
      * exists []. rewrite !logouts_app, Hl, !app_nil_r. split; [done|].
        apply Permutation_app_head.
        pose proof (done_jobs_insert _ _ _ (WInit j) Hp) as H1.
        simpl in H1. by rewrite app_nil_r in H1.
    + exists []. rewrite !app_nil_r.
      destruct (vcs s !! j) as [[vv|]|] eqn:Hvj; [|by simplify_eq/=|done].
      pose proof (Init_logouts (endpoint W j) vv) as Hl.
      destruct (Init _ _ _) as [[v' evs] out] eqn:Hinit.
      pose proof (done_jobs_insert _ _ _ (WDisconnect j) Hp) as H1.
      simpl in H1. rewrite app_nil_r in H1.
      destruct out as [[e|]|code|]; simplify_eq/=;
        rewrite ?logouts_app, ?Hl, ?app_nil_r; (split; [done|]);
        try done; by apply Permutation_app_head.
    + destruct (held_job _ _ _ _ w (WDisconnect j) j HI Hp ltac:(left))
        as (v & Hv & Hok & vf & Hlife & Hat).
      rewrite Hat in Hstep. simpl in Hstep.
      pose proof (Disconnect_logouts (endpoint W j) vf) as Hl.
      destruct (Disconnect _ _) as [evs o]; simplify_eq/=.
      exists [j]. simpl. rewrite logouts_app, Hl, app_nil_r. split.
      * f_equal. unfold session_of. rewrite Hv.
        destruct (Connect (endpoint W j) (v0 j v)) as [[v1 evs1] e1] eqn:Hconn.
        simpl in Hok. subst e1.
        rewrite (lifecycle_init bs _ _ _ _ Hconn) in Hlife.
        pose proof (Init_spec (endpoint W j) v1) as ((_ & _ & _ & Hc & _) & _).
        destruct (Init bs (endpoint W j) v1) as [[v2 evs2] [r|code|]];
          simplify_eq/=. by rewrite Hc.
      * rewrite <- app_assoc. apply Permutation_app_head.
        pose proof (done_jobs_insert _ _ _ (WDone j) Hp) as H1.
        simpl in H1. rewrite app_nil_r in H1. rewrite H1. apply Permutation_cons_append.
    + exists []. rewrite !app_nil_r. case_decide; simplify_eq/=. split; [done|].
      rewrite <- app_assoc. apply Permutation_app_head.
      pose proof (done_jobs_insert _ _ _ WRange Hp) as H1. simpl in H1.
      rewrite <- H1. apply Permutation_app_comm.
    + done.
Qed.

(** Every session is logged out once, and before the token of its job is
    sent: under every schedule the [Logout] calls made so far are, one
    each, the sessions [Connect] opened for the jobs that have been
    signalled or are about to be; there is no [Logout] for an endpoint
    whose connection failed. When [main] has returned, every session that
    was opened has been logged out. *)
Theorem sessions_logged_out (src : config_file) (sch : list action) :
  let config := (load_config src).1 in
  let s := run bs csv W sch (boot csv W src) in
  let opened := session_of W (VCenters config) in
  logouts (events s) ≡ₚ (signalled s ++ done_jobs (workers s)) ≫= opened ∧
  (status s = Some 0 →
   logouts (events s) ≡ₚ seq 0 (length (VCenters config)) ≫= opened).
Proof.
  intros config s opened.
  assert (logouts (events s) ≡ₚ (signalled s ++ done_jobs (workers s)) ≫= opened)
    as Hlog.
  { unfold s. eapply (run_invariant (λ s, logouts (events s) ≡ₚ
        (signalled s ++ done_jobs (workers s)) ≫= opened)); [|apply boot_Inv|].
    - clear s. intros a s s' HI HP Hstep.
      destruct (step_sessions _ _ _ _ _ _ HI Hstep) as (js & -> & ->).
      rewrite bind_app. by apply Permutation_app_tail.
    - unfold boot. destruct (load_config src) as [c evs] eqn:Hload.
      destruct (newCsv _ _ _ _ _) as [f o]. simpl.
      rewrite logouts_app. by destruct src; simplify_eq/=. }
  split; [done|]. intros Hst.
  pose proof (run_Inv bs csv W _ _ _ sch _ (boot_Inv bs csv W src)) as (HC & _ & _ & Hret & _).
  fold s config in HC, Hret.
  pose proof (barrier _ _ HC) as Hb. rewrite (Hret Hst) in Hb.
  destruct (Hb eq_refl eq_refl) as (Hsig & _ & Hheld & _).
  rewrite Hlog, (done_jobs_held _ Hheld), app_nil_r. by rewrite Hsig.
Qed.

(** ** What [main] prints at the end *)

Lemma worker_step_pc w s s' : worker_step bs W w s = Some s' → pc s' = pc s.
Proof.
  unfold worker_step, with_object. intros Hstep.
  destruct (workers s !! w) as [p|]; [|done].
  destruct p as [|j|j|j|j|]; simpl in *.
  - destruct (queue s); [destruct (closed s)|destruct (vcs s !! _) as [[?|]|]];
      by simplify_eq/=.
  - destruct (vcs s !! j) as [[?|]|]; [|by simplify_eq/=|done].
    destruct (Connect _ _) as [[v' evs] [e|]]; by simplify_eq/=.
  - destruct (vcs s !! j) as [[?|]|]; [|by simplify_eq/=|done].
    destruct (Init _ _ _) as [[v' evs] [[e|]|code|]]; by simplify_eq/=.
  - destruct (vcs s !! j) as [[?|]|]; [|by simplify_eq/=|done].
    destruct (Disconnect _ _); by simplify_eq/=.
  - case_decide; by simplify_eq/=.
  - done.
Qed.

(** A worker without a job that finds the queue empty prints nothing. *)
Lemma worker_step_idle w s s' :
  held (workers s) = [] → queue s = [] →
  worker_step bs W w s = Some s' → events s' = events s.
Proof.
  unfold worker_step. intros Hheld Hq Hstep.
  destruct (workers s !! w) as [p|] eqn:Hp; [|done].
  destruct (held_nil_inv _ Hheld _ _ Hp) as [->| ->]; [|done].
  rewrite Hq in Hstep. destruct (closed s); by simplify_eq/=.
Qed.

Lemma step_report vs path d0 a s s' :
  Inv bs csv W (Some <$> vs) path d0 s →
  (∃ pre, events s = pre ++ report bs W vs path (pc s)) →
  step bs csv W a s = Some s' →
  ∃ pre, events s' = pre ++ report bs W vs path (pc s').
Proof.
  intros (HC & HD & Hpath & _ & _) [pre Hev]. unfold step.
  destruct (status s) eqn:Hst; [done|]. destruct a as [|w]; intros Hstep.
  - unfold main_step in Hstep. destruct (pc s) as [i|i| |i|i|] eqn:Hpc.
    + exists (events s').
      destruct (vcs s !! i) as [[?|]|]; simplify_eq/=; rewrite ?Hpc; by rewrite app_nil_r.
    + exists (events s'). repeat case_decide; simplify_eq/=; by rewrite app_nil_r.
    + exists (events s'). simplify_eq/=. by rewrite app_nil_r.
    + case_decide.
      * exists (events s'). destruct (tokens s); simplify_eq/=. by rewrite app_nil_r.
      * exists (events s). by simplify_eq/=.
    + pose proof (barrier _ _ HC) as Hb. rewrite Hpc in Hb.
      destruct (Hb eq_refl eq_refl) as (Hsig & _ & _ & _).
      pose proof (ic_vcs _ _ HC) as Hn. pose proof (ic_counter _ _ HC) as Hc.
      rewrite length_fmap in Hn, Hc, Hsig.
      rewrite Hpc in Hc. simpl in Hc.
      destruct (vcs s !! i) as [[vf|]|] eqn:Hvf.
      * assert (i < length vs)%nat as Hi.
        { rewrite <- Hn. by eapply lookup_lt_Some. }
        destruct (lookup_lt_is_Some_2 _ _ Hi) as [v Hv].
        assert ((Some <$> vs) !! i = Some (Some v)) as Hv'.
        { by rewrite list_lookup_fmap, Hv. }
        assert (i ∈ signalled s) as Hin.
        { rewrite Hsig. apply elem_of_seq. lia. }
        destruct (id_signalled _ _ _ _ HD i v Hin Hv') as (vf' & Hlife & Ho).
        rewrite Hvf in Ho. injection Ho as <-.
        pose proof (lifecycle_keeps _ _ _ Hlife) as ((Hh & _) & Hw).
        assert (Data vf = endpoint_rows bs (endpoint W i) v) as Hd.
        { rewrite <- (endpoint_rows_set_Worker bs _ (Z.of_nat i) v).
          unfold endpoint_rows. fold (v0 i v). by rewrite Hlife. }
        destruct (csvExport _ _ _ _ _) as [f o]. simplify_eq/=.
        exists pre. rewrite Hev, <- app_assoc. f_equal. simpl. f_equal.
        rewrite (take_S_r _ _ _ Hv), imap_app. f_equal.
        rewrite length_take, Nat.min_l by lia. simpl.
        rewrite Nat.add_0_r, Hw, Hh, Hd. done.
      * simplify_eq/=. rewrite Hpc. by exists pre.
      * simplify_eq/=. exists pre. rewrite Hev, <- app_assoc. f_equal. simpl. f_equal.
        apply lookup_ge_None in Hvf. rewrite take_ge by lia. done.
    + done.
  - rewrite (worker_step_pc _ _ _ Hstep).
    destruct (pc s) eqn:Hpc; simpl in *;
      try (exists (events s'); by rewrite app_nil_r).
    + pose proof (barrier _ _ HC) as Hb. rewrite Hpc in Hb.
      destruct (Hb eq_refl eq_refl) as (_ & _ & Hheld & Hq).
      rewrite (worker_step_idle _ _ _ Hheld Hq Hstep). by exists pre.
    + pose proof (ic_status _ _ HC Hpc). congruence.
Qed.

(** When [main] has returned, no element of [VCenters] is nil and the
    output ends with its report: the line about merging; then one line for
    each endpoint, in the order of the configuration, with the position of
    the endpoint, the number of rows its job left and its [Hostname]; then
    the line about the saved results. No worker prints in between. *)
Theorem final_report (src : config_file) (sch : list action) :
  let config := (load_config src).1 in
  let s := run bs csv W sch (boot csv W src) in
  let line := λ j v,
    summary_line j (Hostname v) (length (endpoint_rows bs (endpoint W j) v)) in
  status s = Some 0 →
  ∃ vs pre,
    VCenters config = Some <$> vs ∧
    events s =
      pre ++ [Stdout (Println ["Main : merging results..."])] ++
      imap line vs ++
      [Stdout (Println ["Main : Results saved to"; Outpath config])].
Proof.
  intros config s line Hst.
  pose proof (run_Inv bs csv W _ _ _ sch _ (boot_Inv bs csv W src)) as HI.
  fold s config in HI. pose proof HI as (_ & _ & _ & Hret & _).
  destruct (objects_after_spawn bs csv W _ _ _ _ HI) as [vs Hvs].
  { by rewrite (Hret Hst). }
  exists vs.
  assert (∃ pre, events s = pre ++ report bs W vs (Outpath config) (pc s)) as [pre Hev].
  { pose proof (boot_Inv bs csv W src) as HI0. fold config in HI0.
    rewrite Hvs in HI0. unfold s.
    eapply (run_invariant (λ s, ∃ pre, events s =
        pre ++ report bs W vs (Outpath config) (pc s))); [|exact HI0|].
    - intros a s1 s2 HI1 HP Hstep. by eapply step_report.
    - exists (events (boot csv W src)). unfold boot.
      destruct (load_config src) as [c evs]. destruct (newCsv _ _ _ _ _) as [f o].
      simpl. by rewrite app_nil_r. }
  rewrite (Hret Hst) in Hev. by exists pre.
Qed.

(** ** The answers to [Logout] *)

Lemma Init_hosts_Logout l j hss v :
  Init_hosts bs (endpoint (with_Logout l W) j) hss v =
  Init_hosts bs (endpoint W j) hss v.
Proof.
  revert v. induction hss as [|hs hss IH]; intros v; simpl; [done|].
  destruct (mo.Parent hs) as [parent|]; [|done].
  change (RetrieveOne (endpoint (with_Logout l W) j) parent)
    with (RetrieveOne (endpoint W j) parent).
  destruct (RetrieveOne (endpoint W j) parent); [|done].
  destruct (host_stats _ hs); [apply IH|done].
Qed.

Lemma Init_Logout l j v :
  Init bs (endpoint (with_Logout l W) j) v = Init bs (endpoint W j) v.
Proof.
  unfold Init. destruct (client v); [|done].
  change (CreateContainerView (endpoint (with_Logout l W) j))
    with (CreateContainerView (endpoint W j)).
  change (Retrieve (endpoint (with_Logout l W) j)) with (Retrieve (endpoint W j)).
  destruct (CreateContainerView (endpoint W j)); [done|].
  destruct (Retrieve (endpoint W j)) as [hss|]; [|done].
  by rewrite Init_hosts_Logout.
Qed.

Lemma lifecycle_Logout l j v :
  lifecycle bs (endpoint (with_Logout l W) j) v = lifecycle bs (endpoint W j) v.
Proof.
  unfold lifecycle.
  change (Connect (endpoint (with_Logout l W) j) v) with (Connect (endpoint W j) v).
  destruct (Connect (endpoint W j) v) as [[v1 evs1] [err|]]; [done|].
  by rewrite Init_Logout.
Qed.

(** A [Logout] that fails changes nothing of the result: two runs that
    differ in the answers to [Logout], and in their schedules, leave the
    same file and the same rows in every [VCenter] when [main] returns;
    and a job ends the process in the one if it does in the other. *)
Theorem logout_failure_harmless (src : config_file) (sch sch' : list action)
    (l : nat → option error) :
  let W' := with_Logout l W in
  let config := (load_config src).1 in
  let s := run bs csv W sch (boot csv W src) in
  let s' := run bs csv W' sch' (boot csv W' src) in
  status s = Some 0 → status s' = Some 0 →
  disk s' = disk s ∧
  (λ o : option VCenter, Data <$> o) <$> vcs s' =
    (λ o : option VCenter, Data <$> o) <$> vcs s ∧
  (all_return bs W' (VCenters config) ↔ all_return bs W (VCenters config)).
Proof.
  intros W' config s s' Hst Hst'.
  assert (∀ j o, job_rows bs W' j o = job_rows bs W j o) as Hrows.
  { intros j [v|]; [|done]. unfold job_rows, endpoint_rows, W'.
    by rewrite lifecycle_Logout. }
  split; [|split].
  - pose proof (export_disk bs csv W src sch Hst) as Hd.
    pose proof (export_disk bs csv W' src sch' Hst') as Hd'.
    fold s config in Hd. fold s' config in Hd'. rewrite Hd, Hd'. f_equal. f_equal.
    apply imap_ext. intros j v _. cbv beta. by rewrite Hrows.
  - pose proof (run_Inv bs csv W _ _ _ sch _ (boot_Inv bs csv W src)) as HI.
    pose proof (run_Inv bs csv W' _ _ _ sch' _ (boot_Inv bs csv W' src)) as HI'.
    pose proof HI as (_ & _ & _ & Hret & _).
    pose proof HI' as (_ & _ & _ & Hret' & _).
    fold s in Hret. fold s' in Hret'.
    destruct (exported_Data bs csv W _ _ _ _ HI) as (vs & Hvs & Hdata);
      [fold s; by rewrite (Hret Hst)..|].
    destruct (exported_Data bs csv W' _ _ _ _ HI') as (vs' & Hvs' & Hdata');
      [fold s'; by rewrite (Hret' Hst')..|].
    fold s in Hvs. fold s' in Hvs'. rewrite Hvs, Hvs', <- !list_fmap_compose.
    change ((λ o : option VCenter, Data <$> o) ∘ Some) with (Some ∘ Data).
    rewrite !list_fmap_compose.
    rewrite Hdata, Hdata'. f_equal. apply imap_ext. intros j v _. by rewrite Hrows.
  - unfold all_return, W'. split; intros H j o Ho;
      destruct (H j o Ho) as (v & vf & -> & Hl); exists v, vf;
      (split; [done|]); by rewrite lifecycle_Logout in *.
Qed.

(** ** Rows and records *)

(** A row shows the record it was made of, but for the memory columns:
    two records with numbers within their Go types that give the same row
    agree in every text field and every count, the numbers being printed
    in decimal. (The three memory columns are printed in rounded, human
    readable units.) *)
Theorem Slice_shows_record (r r' : hostStat) :
  stat_in_range r → stat_in_range r' →
  Slice bs r = Slice bs r' →
  Cluster r = Cluster r' ∧ Host r = Host r' ∧ Version r = Version r' ∧
  Build r = Build r' ∧ Vendor r = Vendor r' ∧ Model r = Model r' ∧
  NumCpuPkgs r = NumCpuPkgs r' ∧ NumCpuCores r = NumCpuCores r' ∧
  NumCpuThreads r = NumCpuThreads r' ∧ CpuModel r = CpuModel r' ∧
  TotalCPU r = TotalCPU r' ∧ FreeCPU r = FreeCPU r'.
Proof.
  intros (H1 & H2 & H3 & H4 & H5) (H1' & H2' & H3' & H4' & H5') Heq.
  assert (∀ x, in_int 16 x → int64 x = x) as H16.
  { intros x Hx. apply int64_small. eapply in_int_64; [|done]. lia. }
  unfold Slice in Heq.
  rewrite (H16 _ H1), (H16 _ H1'), (H16 _ H2), (H16 _ H2'), (H16 _ H3), (H16 _ H3'),
    (int64_small _ H4), (int64_small _ H4'), (int64_small _ H5), (int64_small _ H5')
    in Heq.
  unfold FormatInt in Heq.
  injection Heq as E1 E2 E3 E4 E5 E6 E7 E8 E9 E10 E11 E12 _ _ _.
  apply (inj pretty) in E7, E8, E9, E11, E12. done.
Qed.

End More.

(** ** The statements at the sample data *)

Lemma rows_match_header_witness :
  let boot0 := boot plain_csv world_ok (Decoded config_abc) in
  let s := run plain_bytes plain_csv world_ok b_last boot0 in
  (disk boot0 = csv_bytes plain_csv [Headers zero_hostStat] ∨
   disk boot0 = disk0 world_ok) ∧
  ∃ rows, rectangular rows ∧ disk s = disk boot0 ++ csv_bytes plain_csv rows.
Proof.
  apply (rows_match_header plain_bytes plain_csv world_ok (Decoded config_abc) b_last).
  - exact I.
  - intros k. exact I.
  - repeat constructor; intros v [= <-]; constructor.
Defined.

Lemma export_despite_faults_witness :
  let boot0 := boot plain_csv world_disk_full (Decoded config_abc) in
  let s := run plain_bytes plain_csv world_disk_full b_last boot0 in
  let rows_b := job_rows plain_bytes world_disk_full 1 (Some (sample_vcenter "b")) in
  accepted (append_fault world_disk_full "out.csv" 1) (csv_bytes plain_csv rows_b)
    = String.list_byte_of_string "c1,esx2,7.0,123,Dell" ∧
  (csvExport plain_csv (append_fault world_disk_full "out.csv" 1) rows_b "out.csv" []).2
    = None ∧
  disk s = disk boot0 ++
    concat (imap (λ j o, accepted (append_fault world_disk_full "out.csv" j)
                           (csv_bytes plain_csv (job_rows plain_bytes world_disk_full j o)))
                 (VCenters config_abc)).
Proof.
  split; [vm_compute; reflexivity|]. split; [vm_compute; reflexivity|].
  apply (export_despite_faults plain_bytes plain_csv world_disk_full
           (Decoded config_abc) b_last).
  vm_compute. reflexivity.
Defined.

(** A nil element of [VCenters] ends the process by a panic when [main]
    comes to it in the loop that starts the workers: one worker has been
    started, no job has been sent, and the file holds the header line. *)
Lemma nil_element_panics :
  let s := run plain_bytes plain_csv world_ok (round_robin 20)
               (boot plain_csv world_ok (Decoded config_null)) in
  status s = Some 2 ∧ pc s = MSpawn 1 ∧ workers s = [WRange] ∧
  queue s = [] ∧ signalled s = [] ∧
  disk s = csv_bytes plain_csv [Headers zero_hostStat].
Proof. vm_compute. done. Qed.

(** A host without [config] ends the process by a panic inside [Init],
    after the endpoints [a] and [c] have been collected, disconnected and
    signalled: [main] still waits, there is no logout for [b], and the
    file holds the header line. *)
Lemma host_without_config_panics :
  let s := run plain_bytes plain_csv world_partial b_last
               (boot plain_csv world_partial (Decoded config_abc)) in
  status s = Some 2 ∧ pc s = MWait 2 ∧
  workers s = [WReturned; WInit 1; WReturned] ∧ signalled s = [0; 2]%nat ∧
  logouts (events s) = [ {| client_url := "https://u:p@a/sdk" |};
                         {| client_url := "https://u:p@c/sdk" |} ] ∧
  disk s = csv_bytes plain_csv [Headers zero_hostStat].
Proof. vm_compute. done. Qed.

Lemma final_report_witness :
  let s := run plain_bytes plain_csv world_ok b_last
               (boot plain_csv world_ok (Decoded config_abc)) in
  ∃ vs pre,
    VCenters config_abc = Some <$> vs ∧
    events s =
      pre ++ [Stdout (Println ["Main : merging results..."])] ++
      imap (λ j v, summary_line j (Hostname v)
                     (length (endpoint_rows plain_bytes (endpoint world_ok j) v))) vs ++
      [Stdout (Println ["Main : Results saved to"; "out.csv"])].
Proof.
  apply (final_report plain_bytes plain_csv world_ok (Decoded config_abc) b_last).
  vm_compute. reflexivity.
Defined.

Lemma logout_failure_harmless_witness :
  let W' := with_Logout (λ _, Some "session expired") world_ok in
  let s := run plain_bytes plain_csv world_ok b_last
               (boot plain_csv world_ok (Decoded config_abc)) in
  let s' := run plain_bytes plain_csv W' (round_robin 20)
                (boot plain_csv W' (Decoded config_abc)) in
  disk s' = disk s ∧
  (λ o : option VCenter, Data <$> o) <$> vcs s' =
    (λ o : option VCenter, Data <$> o) <$> vcs s ∧
  (all_return plain_bytes W' (VCenters config_abc) ↔
   all_return plain_bytes world_ok (VCenters config_abc)).
Proof.
  apply (logout_failure_harmless plain_bytes plain_csv world_ok (Decoded config_abc)
           b_last (round_robin 20) (λ _, Some "session expired")).
  - vm_compute. reflexivity.
  - vm_compute. reflexivity.
Defined.

Lemma Slice_shows_record_witness :
  let r := default zero_hostStat (host_stats "c1" (sample_host "esx1" "domain-c7")) in
  let r' := default zero_hostStat (host_stats "c1" (sample_host "esx1" "domain-c9")) in
  Cluster r = Cluster r' ∧ Host r = Host r' ∧ Version r = Version r' ∧
  Build r = Build r' ∧ Vendor r = Vendor r' ∧ Model r = Model r' ∧
  NumCpuPkgs r = NumCpuPkgs r' ∧ NumCpuCores r = NumCpuCores r' ∧
  NumCpuThreads r = NumCpuThreads r' ∧ CpuModel r = CpuModel r' ∧
  TotalCPU r = TotalCPU r' ∧ FreeCPU r = FreeCPU r'.
Proof.
  apply (Slice_shows_record plain_bytes).
  - unfold stat_in_range, in_int. vm_compute. repeat split; discriminate.
  - unfold stat_in_range, in_int. vm_compute. repeat split; discriminate.
  - vm_compute. reflexivity.
Defined.
